(** * world-lab-backend: image upload, inference call and response shaping

    A shallow embedding of the two Express servers of the repository:

    - the object-detection server ([POST /upload], [src/server.js]), with its
      [fileFilter], [extractJsonFromResponse] and [analyzeImage];
    - the free-form question server ([POST /analyze], the second server
      file), with its [fileFilter], [encodeImage], [cleanupFile] and the
      error-to-status mapping of the handler;
    - the [filename] functions of the two disk storages and the upload
      middleware in front of the handler of [/analyze].

    JavaScript strings are sequences of UTF-16 code units; built-ins of the
    platform that the code calls ([JSON.parse], [JSON.stringify],
    [String.prototype.trim], [path.extname], the two regular expressions)
    are written out as functions on such sequences. *)

From Stdlib Require Import String Ascii ZArith NArith List Bool Lia.
Import ListNotations.

Set Implicit Arguments.

(* ================================================================== *)
(** * JavaScript strings *)
(* ================================================================== *)

Module JsString.

Local Open Scope N_scope.

(** A code unit of a JavaScript string (a 16-bit value in the engine). *)
Abbreviation codeunit := N (only parsing).

Abbreviation jsstring := (list N) (only parsing).

(** A literal of the source, given by its ASCII characters. *)
Definition js (s : string) : jsstring :=
  map N_of_ascii (list_ascii_of_string s).

(** A literal of the source that holds double quotes, which are written
    here as apostrophes. *)
Definition jsq (s : string) : jsstring :=
  map (fun c => if c =? 39 then 34 else c) (js s).

Definition LF : codeunit := 10.

(** [a === b] on strings. *)
Fixpoint eqs (a b : jsstring) : bool :=
  match a, b with
  | [], [] => true
  | x :: a', y :: b' => (x =? y) && eqs a' b'
  | _, _ => false
  end.

(** [s.startsWith(p)] *)
Fixpoint startsWith (p s : jsstring) : bool :=
  match p, s with
  | [], _ => true
  | _ :: _, [] => false
  | a :: p', b :: s' => (a =? b) && startsWith p' s'
  end.

(** [s.includes(p)] *)
Fixpoint includes (p s : jsstring) : bool :=
  startsWith p s ||
  match s with
  | [] => false
  | _ :: s' => includes p s'
  end.

(** [array.includes(s)] for an array of strings. *)
Definition mem (s : jsstring) (l : list jsstring) : bool :=
  existsb (eqs s) l.

(** WhiteSpace and LineTerminator code units of ECMAScript: what [trim]
    removes and what [\s] matches. *)
Definition isWhiteSpace (c : codeunit) : bool :=
  (c =? 9) || (c =? 10) || (c =? 11) || (c =? 12) || (c =? 13) ||
  (c =? 32) || (c =? 160) || (c =? 5760) ||
  ((8192 <=? c) && (c <=? 8202)) ||
  (c =? 8232) || (c =? 8233) || (c =? 8239) || (c =? 8287) ||
  (c =? 12288) || (c =? 65279).

Fixpoint trimStart (s : jsstring) : jsstring :=
  match s with
  | c :: s' => if isWhiteSpace c then trimStart s' else s
  | [] => []
  end.

Definition trimEnd (s : jsstring) : jsstring :=
  rev (trimStart (rev s)).

(** [s.trim()] *)
Definition trim (s : jsstring) : jsstring := trimEnd (trimStart s).

(** [s.toLowerCase()], on the letters A-Z.  Code units outside ASCII are
    left as they are: the Unicode case mapping is not modelled.  No string
    the servers compare against can be reached through it (none contains a
    [k], the only ASCII letter that is the lower case of a non-ASCII
    character), so every comparison with one of those strings comes out as
    in the code.  The lower-cased text itself is that of the platform for
    strings of ASCII characters; for others it may differ, and what is
    stated about such a text is stated for ASCII names. *)
Definition lowerUnit (c : codeunit) : codeunit :=
  if (65 <=? c) && (c <=? 90) then c + 32 else c.

Definition toLowerCase (s : jsstring) : jsstring := map lowerUnit s.

(** [s.slice(1)] *)
Definition slice1 (s : jsstring) : jsstring := tl s.

End JsString.

Export JsString.

(* ================================================================== *)
(** * Completions: a value or a thrown error *)
(* ================================================================== *)

(** An error object, with the properties the handlers probe or the
    client libraries set: [error.message], [error.code],
    [error.response?.status] (set by the HTTP client of [/analyze]) and
    [error.status] (set by the provider's client of [/upload]); [None]
    when the property is absent. *)
Record js_error := {
  message : jsstring;
  code : option jsstring;
  response_status : option Z;
  status : option Z
}.

(** [new Error(msg)] *)
Definition Error (msg : jsstring) : js_error :=
  {| message := msg; code := None; response_status := None; status := None |}.

Inductive completion (A : Type) : Type :=
| Normal (a : A)
| Throw (e : js_error).

Arguments Normal {A} a.
Arguments Throw {A} e.

(** [try { body } catch (e) { handler }] on completions. *)
Definition try_catch {A} (body : completion A)
           (handler : js_error -> completion A) : completion A :=
  match body with
  | Normal a => Normal a
  | Throw e => handler e
  end.

Definition threw {A} (c : completion A) : bool :=
  match c with
  | Normal _ => false
  | Throw _ => true
  end.

Definition cbind {A B} (c : completion A) (k : A -> completion B)
  : completion B :=
  match c with
  | Normal a => k a
  | Throw e => Throw e
  end.

(* ================================================================== *)
(** * JSON values, [JSON.parse] and [JSON.stringify] *)
(* ================================================================== *)

Module Json.

(** A finite Number, held as the decimal [mant * 10^expo] in lowest terms:
    [mant] is not a multiple of ten, and zero is [0 * 10^0].  This is the
    decimal that [Number::toString] prints for a Number, and reading that
    decimal back gives the same Number; the rounding of an arbitrary
    literal to the nearest double is not modelled, and [-0] is identified
    with [0], as [===] does. *)
Record number := { mant : Z; expo : Z }.

Definition zero : number := {| mant := 0; expo := 0 |}.

(** The representation is in lowest terms. *)
Definition canonical (x : number) : bool :=
  if (mant x =? 0)%Z then (expo x =? 0)%Z
  else negb (mant x mod 10 =? 0)%Z.

(** [0 <= x && x <= 1] *)
Definition in_unit_interval (x : number) : bool :=
  ((0 <=? mant x) &&
   ((mant x =? 0) || ((expo x <=? 0) && (mant x <=? 10 ^ (- expo x)))))%Z.

(** Own properties of an object in creation order.  (The engine
    enumerates array-index keys first; no key of this program is one.) *)
#[warnings="-register-all"]
Inductive json : Type :=
| JNull
| JBool (b : bool)
| JNumber (n : number)
| JString (s : jsstring)
| JArray (l : list json)
| JObject (fields : list (jsstring * json)).

(** [o[k]] for an own property. *)
Fixpoint get (k : jsstring) (fields : list (jsstring * json)) : option json :=
  match fields with
  | [] => None
  | (k', v) :: r => if eqs k k' then Some v else get k r
  end.

(** Defining a property: a repeated key keeps its place and takes the
    later value.  Keys are kept in the order in which they were defined;
    the platform lists the keys that are array indices before the others,
    so the order is that of the platform for objects without such keys,
    and nothing is stated here about the order of the others. *)
Fixpoint obj_set (k : jsstring) (v : json) (fields : list (jsstring * json))
  : list (jsstring * json) :=
  match fields with
  | [] => [(k, v)]
  | (k', v') :: r =>
      if eqs k k' then (k, v) :: r else (k', v') :: obj_set k v r
  end.

(** [v[k]] when [v] is an object with the own property [k]. *)
Definition prop (k : jsstring) (v : json) : option json :=
  match v with
  | JObject fields => get k fields
  | _ => None
  end.

Local Open Scope N_scope.

(** ** Lexical helpers *)

Definition isJsonWs (c : codeunit) : bool :=
  (c =? 9) || (c =? 10) || (c =? 13) || (c =? 32).

Fixpoint skip_ws (s : jsstring) : jsstring :=
  match s with
  | c :: r => if isJsonWs c then skip_ws r else s
  | [] => []
  end.

Definition isDigit (c : codeunit) : bool := (48 <=? c) && (c <=? 57).

Fixpoint span_digits (s : jsstring) : jsstring * jsstring :=
  match s with
  | c :: r =>
      if isDigit c then let (ds, rest) := span_digits r in (c :: ds, rest)
      else ([], s)
  | [] => ([], [])
  end.

Definition digits_value (ds : jsstring) : N :=
  fold_left (fun a d => 10 * a + (d - 48)) ds 0.

Fixpoint dropZeros (s : jsstring) : jsstring :=
  match s with
  | c :: r => if c =? 48 then dropZeros r else s
  | [] => []
  end.

(** The Number denoted by sign, integer digits, fraction digits and
    exponent of a literal, kept as the exact decimal.  The rounding of
    [JSON.parse] to the nearest double, the overflow to [Infinity] and the
    sign of a zero are not modelled: the value is that of the platform for
    the literals that [Number_toString] prints, the shortest digits of
    their double, and nothing is stated here about other literals. *)
Definition number_of_parts (neg : bool) (int_ds frac_ds : jsstring) (e : Z)
  : number :=
  let ds := int_ds ++ frac_ds in
  let kept := rev (dropZeros (rev ds)) in
  let m := Z.of_N (digits_value kept) in
  if (m =? 0)%Z then zero
  else {| mant := if neg then (- m)%Z else m;
          expo := (e - Z.of_nat (length frac_ds)
                   + Z.of_nat (length ds - length kept))%Z |}.

Definition parse_int (s : jsstring) : option (jsstring * jsstring) :=
  match s with
  | c :: r =>
      if c =? 48 then Some ([c], r)
      else if isDigit c then Some (span_digits s)
      else None
  | [] => None
  end.

Definition parse_frac (s : jsstring) : option (jsstring * jsstring) :=
  match s with
  | c :: r =>
      if c =? 46 then
        match span_digits r with
        | ([], _) => None
        | (ds, rest) => Some (ds, rest)
        end
      else Some ([], s)
  | [] => Some ([], s)
  end.

Definition parse_exp_digits (neg : bool) (s : jsstring) : option (Z * jsstring) :=
  match span_digits s with
  | ([], _) => None
  | (ds, rest) =>
      let v := Z.of_N (digits_value ds) in
      Some (if neg then (- v)%Z else v, rest)
  end.

Definition parse_exp (s : jsstring) : option (Z * jsstring) :=
  match s with
  | c :: r =>
      if (c =? 101) || (c =? 69) then
        match r with
        | sign :: r' =>
            if sign =? 43 then parse_exp_digits false r'
            else if sign =? 45 then parse_exp_digits true r'
            else parse_exp_digits false r
        | [] => None
        end
      else Some (0%Z, s)
  | [] => Some (0%Z, s)
  end.

(** JSONNumber: an optional minus sign; [0] or a digit 1-9 followed by
    digits; optionally a point and one or more digits; optionally [e] or
    [E], a sign, and one or more digits. *)
Definition parse_magnitude (neg : bool) (s : jsstring)
  : option (number * jsstring) :=
  match parse_int s with
  | None => None
  | Some (ids, s2) =>
      match parse_frac s2 with
      | None => None
      | Some (fds, s3) =>
          match parse_exp s3 with
          | None => None
          | Some (e, s4) => Some (number_of_parts neg ids fds e, s4)
          end
      end
  end.

Definition parse_number (s : jsstring) : option (number * jsstring) :=
  match s with
  | c :: r => if c =? 45 then parse_magnitude true r else parse_magnitude false s
  | [] => None
  end.

(** No digit heads [rest]. *)
Definition no_digit (rest : jsstring) : bool :=
  match rest with
  | [] => true
  | c :: _ => negb (isDigit c)
  end.

(** Nothing that could continue a number literal heads [rest]. *)
Definition ends_number (rest : jsstring) : bool :=
  match rest with
  | [] => true
  | c :: _ => negb (isDigit c || (c =? 46) || (c =? 101) || (c =? 69))
  end.

Definition hexval (c : codeunit) : option N :=
  if isDigit c then Some (c - 48)
  else if (97 <=? c) && (c <=? 102) then Some (c - 87)
  else if (65 <=? c) && (c <=? 70) then Some (c - 55)
  else None.

Definition hex4 (a b c d : codeunit) : option codeunit :=
  match hexval a, hexval b, hexval c, hexval d with
  | Some x, Some y, Some z, Some w => Some (((x * 16 + y) * 16 + z) * 16 + w)
  | _, _, _, _ => None
  end.

(** The single-character escapes of a JSON string. *)
Definition unescape (e : codeunit) : option codeunit :=
  if e =? 34 then Some 34
  else if e =? 92 then Some 92
  else if e =? 47 then Some 47
  else if e =? 98 then Some 8
  else if e =? 102 then Some 12
  else if e =? 110 then Some 10
  else if e =? 114 then Some 13
  else if e =? 116 then Some 9
  else None.

Definition push (c : codeunit) (r : option (jsstring * jsstring))
  : option (jsstring * jsstring) :=
  match r with
  | Some (s, rest) => Some (c :: s, rest)
  | None => None
  end.

(** The characters of a JSONString after its opening quote, up to and
    including the closing quote. *)
Fixpoint parse_chars (s : jsstring) : option (jsstring * jsstring) :=
  match s with
  | [] => None
  | c :: s1 =>
      if c =? 34 then Some ([], s1)
      else if c =? 92 then
        match s1 with
        | [] => None
        | e :: s2 =>
            if e =? 117 then
              match s2 with
              | h1 :: h2 :: h3 :: h4 :: s3 =>
                  match hex4 h1 h2 h3 h4 with
                  | Some u => push u (parse_chars s3)
                  | None => None
                  end
              | _ => None
              end
            else
              match unescape e with
              | Some u => push u (parse_chars s2)
              | None => None
              end
        end
      else if c <? 32 then None
      else push c (parse_chars s1)
  end.

(** ** The JSON grammar

    Recursive descent on the text.  [fuel] bounds the number of nested and
    consecutive values; [JSON_parse] gives two units per code unit of the
    text, which the descent cannot use up ([parse_value_fuel] below). *)
Fixpoint parse_value (fuel : nat) (s : jsstring) {struct fuel}
  : option (json * jsstring) :=
  match fuel with
  | O => None
  | S f =>
      match skip_ws s with
      | [] => None
      | c :: r =>
          if c =? 123 then
            match skip_ws r with
            | c' :: r' =>
                if c' =? 125 then Some (JObject [], r')
                else parse_members f [] r
            | [] => None
            end
          else if c =? 91 then
            match skip_ws r with
            | c' :: r' =>
                if c' =? 93 then Some (JArray [], r')
                else parse_elements f [] r
            | [] => None
            end
          else if c =? 34 then
            match parse_chars r with
            | Some (str, r') => Some (JString str, r')
            | None => None
            end
          else if startsWith (js "true") (c :: r) then
            Some (JBool true, skipn 4 (c :: r))
          else if startsWith (js "false") (c :: r) then
            Some (JBool false, skipn 5 (c :: r))
          else if startsWith (js "null") (c :: r) then
            Some (JNull, skipn 4 (c :: r))
          else
            match parse_number (c :: r) with
            | Some (n, r') => Some (JNumber n, r')
            | None => None
            end
      end
  end

with parse_elements (fuel : nat) (acc : list json) (s : jsstring)
                    {struct fuel} : option (json * jsstring) :=
  match fuel with
  | O => None
  | S f =>
      match parse_value f s with
      | None => None
      | Some (v, r) =>
          match skip_ws r with
          | c :: r' =>
              if c =? 44 then parse_elements f (v :: acc) r'
              else if c =? 93 then Some (JArray (rev (v :: acc)), r')
              else None
          | [] => None
          end
      end
  end

with parse_members (fuel : nat) (acc : list (jsstring * json)) (s : jsstring)
                   {struct fuel} : option (json * jsstring) :=
  match fuel with
  | O => None
  | S f =>
      match skip_ws s with
      | q :: r =>
          if q =? 34 then
            match parse_chars r with
            | None => None
            | Some (k, r1) =>
                match skip_ws r1 with
                | c :: r2 =>
                    if c =? 58 then
                      match parse_value f r2 with
                      | None => None
                      | Some (v, r3) =>
                          match skip_ws r3 with
                          | c' :: r4 =>
                              if c' =? 44 then
                                parse_members f (obj_set k v acc) r4
                              else if c' =? 125 then
                                Some (JObject (obj_set k v acc), r4)
                              else None
                          | [] => None
                          end
                      end
                    else None
                | [] => None
                end
            end
          else None
      | [] => None
      end
  end.

Definition parse_json (text : jsstring) : option json :=
  match parse_value (2 * length text + 2) text with
  | Some (v, r) =>
      match skip_ws r with
      | [] => Some v
      | _ :: _ => None
      end
  | None => None
  end.

(** The [SyntaxError] of [JSON.parse]; its message is the engine's own. *)
Definition SyntaxError : js_error := Error (js "Unexpected token in JSON").

(** [JSON.parse(text)] *)
Definition JSON_parse (text : jsstring) : completion json :=
  match parse_json text with
  | Some v => Normal v
  | None => Throw SyntaxError
  end.

(** ** [JSON.stringify] *)

Fixpoint digits_fuel (fuel : nat) (n : N) (acc : jsstring) : jsstring :=
  match fuel with
  | O => acc
  | S f =>
      let acc' := (48 + n mod 10) :: acc in
      if n <? 10 then acc' else digits_fuel f (n / 10) acc'
  end.

(** The decimal digits of [n], most significant first. *)
Definition digits_of_N (n : N) : jsstring :=
  digits_fuel (N.to_nat (N.succ (N.log2 n))) n [].

(** [ds] are the digits of the positive number [a], the first and the
    last of them not zero. *)
Record printed (ds : jsstring) (a : N) : Prop := {
  printed_head : exists c r, ds = c :: r /\ c <> 48 /\ isDigit c = true;
  printed_last : exists pre dl, ds = pre ++ [dl] /\ dl <> 48;
  printed_all : forallb isDigit ds = true;
  printed_value : digits_value ds = a;
  printed_pos : a <> 0
}.

(** The exponent part of the scientific layouts: [e], the sign, and the
    digits of the absolute value. *)
Definition exponent_part (e : Z) : jsstring :=
  js "e" ++ (if (e <? 0)%Z then js "-" else js "+")
  ++ digits_of_N (Z.to_N (Z.abs e)).

(** The layouts of [Number::toString] for the [k] digits [ds] of a
    positive Number [0.ds * 10^n]: an integer padded with zeros; digits
    with a point inside; [0.] and zeros before the digits; and the two
    scientific layouts. *)
Definition layout (ds : jsstring) (n : Z) : jsstring :=
  let k := Z.of_nat (length ds) in
  if ((k <=? n) && (n <=? 21))%Z then
    ds ++ repeat 48 (Z.to_nat (n - k))
  else if ((0 <? n) && (n <=? 21))%Z then
    firstn (Z.to_nat n) ds ++ js "." ++ skipn (Z.to_nat n) ds
  else if ((-6 <? n) && (n <=? 0))%Z then
    js "0." ++ repeat 48 (Z.to_nat (- n)) ++ ds
  else
    match ds with
    | [] => []
    | [d] => d :: exponent_part (n - 1)
    | d :: r => d :: js "." ++ r ++ exponent_part (n - 1)
    end.

(** [Number::toString(x, 10)] for a finite Number. *)
Definition Number_toString (x : number) : jsstring :=
  if (mant x =? 0)%Z then js "0"
  else
    let ds := digits_of_N (Z.to_N (Z.abs (mant x))) in
    (if (mant x <? 0)%Z then js "-" else [])
    ++ layout ds (expo x + Z.of_nat (length ds)).

Definition hexdigit (n : N) : codeunit :=
  if n <? 10 then 48 + n else 87 + n.

Definition unicode_escape (c : codeunit) : jsstring :=
  [92; 117; hexdigit (c / 4096 mod 16); hexdigit (c / 256 mod 16);
   hexdigit (c / 16 mod 16); hexdigit (c mod 16)].

Definition isHighSurrogate (c : codeunit) : bool :=
  (55296 <=? c) && (c <=? 56319).

Definition isLowSurrogate (c : codeunit) : bool :=
  (56320 <=? c) && (c <=? 57343).

(** The body of [QuoteJSONString]: two-character escapes, [\uXXXX] for
    the other control characters and for lone surrogates, everything else
    as it is. *)
Fixpoint quote_chars (s : jsstring) : jsstring :=
  match s with
  | [] => []
  | c :: s1 =>
      if c =? 8 then js "\b" ++ quote_chars s1
      else if c =? 9 then js "\t" ++ quote_chars s1
      else if c =? 10 then js "\n" ++ quote_chars s1
      else if c =? 12 then js "\f" ++ quote_chars s1
      else if c =? 13 then js "\r" ++ quote_chars s1
      else if c =? 34 then 92 :: 34 :: quote_chars s1
      else if c =? 92 then js "\\" ++ quote_chars s1
      else if c <? 32 then unicode_escape c ++ quote_chars s1
      else if isHighSurrogate c then
        match s1 with
        | d :: s2 =>
            if isLowSurrogate d then c :: d :: quote_chars s2
            else unicode_escape c ++ quote_chars s1
        | [] => unicode_escape c
        end
      else if isLowSurrogate c then unicode_escape c ++ quote_chars s1
      else c :: quote_chars s1
  end.

Definition QuoteJSONString (s : jsstring) : jsstring :=
  34 :: quote_chars s ++ [34].

Fixpoint join (sep : jsstring) (l : list jsstring) : jsstring :=
  match l with
  | [] => []
  | [x] => x
  | x :: r => x ++ sep ++ join sep r
  end.

(** [JSON.stringify(v)] without indentation. *)
Fixpoint JSON_stringify (v : json) : jsstring :=
  match v with
  | JNull => js "null"
  | JBool true => js "true"
  | JBool false => js "false"
  | JNumber n => Number_toString n
  | JString s => QuoteJSONString s
  | JArray l => js "[" ++ join (js ",") (map JSON_stringify l) ++ js "]"
  | JObject fields =>
      js "{" ++
      join (js ",")
        (map (fun kv => match kv with
                        | (k, x) => QuoteJSONString k ++ js ":" ++ JSON_stringify x
                        end) fields)
      ++ js "}"
  end.

End Json.

Export Json.

(* ================================================================== *)
(** * The response extractor of [src/server.js] *)
(* ================================================================== *)

Module Detect.

Local Open Scope N_scope.

(** What a JavaScript function hands back: a JSON value, or [undefined]
    when it ends without a [return]. *)
Inductive jsval : Type :=
| Undefined
| Val (v : json).

(** ** [text.replace(/```json\n|\n```|```/g, '')] *)

Definition fence_json : jsstring := js "```json" ++ [LF].
Definition fence_close : jsstring := LF :: js "```".
Definition fence : jsstring := js "```".

(** Length of the match of the pattern at the head of [s]; the
    alternatives are tried in the order they are written. *)
Definition fence_match (s : jsstring) : option nat :=
  if startsWith fence_json s then Some 8%nat
  else if startsWith fence_close s then Some 4%nat
  else if startsWith fence s then Some 3%nat
  else None.

(** Global replacement, left to right; [skip] counts the code units of the
    current match still to be dropped. *)
Fixpoint replace_fences_from (skip : nat) (s : jsstring) : jsstring :=
  match s with
  | [] => []
  | c :: r =>
      match skip with
      | S k => replace_fences_from k r
      | O =>
          match fence_match s with
          | Some n => replace_fences_from (n - 1) r
          | None => c :: replace_fences_from 0 r
          end
      end
  end.

Definition replace_fences (s : jsstring) : jsstring :=
  replace_fences_from 0 s.

(** ** [text.match(/\[[\s\S]*\]/)] *)

(** The suffix of [s] that starts at the first [c]. *)
Fixpoint from_first (c : codeunit) (s : jsstring) : option jsstring :=
  match s with
  | [] => None
  | x :: r => if x =? c then Some s else from_first c r
  end.

(** The prefix of [s] that ends at the last [c]. *)
Fixpoint upto_last (c : codeunit) (s : jsstring) : option jsstring :=
  match s with
  | [] => None
  | x :: r =>
      match upto_last c r with
      | Some p => Some (x :: p)
      | None => if x =? c then Some [x] else None
      end
  end.

(** [match[0]], or [None] for a [null] match: the leftmost opening
    bracket, then greedily up to the last closing bracket after it. *)
Definition match_array (text : jsstring) : option jsstring :=
  match from_first 91 text with
  | Some (b :: r) =>
      match upto_last 93 r with
      | Some p => Some (b :: p)
      | None => None
      end
  | _ => None
  end.

(** ** Detections *)

Record Detection := { label : jsstring; confidence : number }.

Definition json_of_detection (d : Detection) : json :=
  JObject [(js "label", JString (label d));
           (js "confidence", JNumber (confidence d))].

Definition json_of_detections (ds : list Detection) : json :=
  JArray (map json_of_detection ds).

(** A well-formed Detection: an object whose [label] is a string and whose
    [confidence] is a number between 0 and 1. *)
Definition isDetection (v : json) : bool :=
  match v with
  | JObject fields =>
      match get (js "label") fields, get (js "confidence") fields with
      | Some (JString _), Some (JNumber c) => in_unit_interval c
      | _, _ => false
      end
  | _ => false
  end.

(** A list of well-formed Detections. *)
Definition isDetectionList (r : jsval) : bool :=
  match r with
  | Val (JArray l) => forallb isDetection l
  | _ => false
  end.

(** A Detection record that is well formed. *)
Definition well_formed (d : Detection) : bool :=
  canonical (confidence d) && in_unit_interval (confidence d).

(** [JSON.stringify(d)] *)
Definition printed_detection (d : Detection) : jsstring :=
  JSON_stringify (json_of_detection d).

(** [[{ label: "Error parsing objects", confidence: 0 }]] *)
Definition sentinel : json :=
  json_of_detections
    [{| label := js "Error parsing objects"; confidence := zero |}].

(** ** [extractJsonFromResponse] *)

Definition parsed (text : jsstring) : completion jsval :=
  cbind (JSON_parse text) (fun v => Normal (Val v)).

Definition extractJsonFromResponse (text : jsstring) : completion jsval :=
  try_catch
    (parsed text)
    (fun e =>
       try_catch
         (let jsonStr := trim (replace_fences text) in
          parsed jsonStr)
         (fun e2 =>
            try_catch
              (match match_array text with
               | Some m => parsed m
               | None => Normal Undefined
               end)
              (fun e3 => Normal (Val sentinel)))).

(** The layers of the extraction, as the code runs through them: the
    whole text; the text without fences, trimmed; the bracketed substring;
    the sentinel when that substring does not parse; and [undefined] when
    there is no bracketed substring. *)
Inductive extraction (text : jsstring) : completion jsval -> Prop :=
| ByWholeText v :
    JSON_parse text = Normal v ->
    extraction text (Normal (Val v))
| ByStrippedText e v :
    JSON_parse text = Throw e ->
    JSON_parse (trim (replace_fences text)) = Normal v ->
    extraction text (Normal (Val v))
| ByBracketed e e2 m v :
    JSON_parse text = Throw e ->
    JSON_parse (trim (replace_fences text)) = Throw e2 ->
    match_array text = Some m ->
    JSON_parse m = Normal v ->
    extraction text (Normal (Val v))
| BySentinel e e2 m e3 :
    JSON_parse text = Throw e ->
    JSON_parse (trim (replace_fences text)) = Throw e2 ->
    match_array text = Some m ->
    JSON_parse m = Throw e3 ->
    extraction text (Normal (Val sentinel))
| ByNoReturn e e2 :
    JSON_parse text = Throw e ->
    JSON_parse (trim (replace_fences text)) = Throw e2 ->
    match_array text = None ->
    extraction text (Normal Undefined).

End Detect.

(* ================================================================== *)
(** * Requests, responses and effects *)
(* ================================================================== *)

Module Http.

(** [req.file] as the multipart middleware leaves it. *)
Record multer_file := {
  fieldname : jsstring;
  originalname : jsstring;
  encoding : jsstring;
  mimetype : jsstring;
  destination : jsstring;
  filename : jsstring;
  path : jsstring;
  size : N
}.

Definition number_of_N (n : N) : number :=
  number_of_parts false (digits_of_N n) [] 0.

Definition json_of_file (f : multer_file) : json :=
  JObject [(js "fieldname", JString (fieldname f));
           (js "originalname", JString (originalname f));
           (js "encoding", JString (encoding f));
           (js "mimetype", JString (mimetype f));
           (js "destination", JString (destination f));
           (js "filename", JString (filename f));
           (js "path", JString (path f));
           (js "size", JNumber (number_of_N (size f)))].

(** [req.file] ([None] for [undefined]) and [req.body.question]. *)
Record request := {
  file : option multer_file;
  question : option jsstring
}.

(** What [res.status(c).json(b)] sends. *)
Record response := { status_code : Z; body : json }.

Inductive event : Type :=
| EvReadFile (p : jsstring)
| EvInference (timeout : option Z)
| EvRespond (r : response)
| EvUnlink (p : jsstring).

(** The state a handler runs in: the files of the scratch directory, the
    effects so far (oldest first), and the handler's local [filePath]. *)
Record state := {
  files : list jsstring;
  trace : list event;
  filePath : option jsstring
}.

Definition emit (ev : event) (w : state) : state :=
  {| files := files w; trace := trace w ++ [ev]; filePath := filePath w |}.

(** Computations with effects on the state that may throw; the effects of
    a computation that throws stay. *)
Definition M (A : Type) : Type := state -> completion A * state.

Definition ret {A} (a : A) : M A := fun w => (Normal a, w).

Definition throw {A} (e : js_error) : M A := fun w => (Throw e, w).

Definition bind {A B} (m : M A) (k : A -> M B) : M B :=
  fun w =>
    match m w with
    | (Normal a, w') => k a w'
    | (Throw e, w') => (Throw e, w')
    end.

Definition lift {A} (c : completion A) : M A := fun w => (c, w).

(** [try { body } catch (error) { handler }] *)
Definition try_catchM {A} (body : M A) (handler : js_error -> M A) : M A :=
  fun w =>
    match body w with
    | (Normal a, w') => (Normal a, w')
    | (Throw e, w') => handler e w'
    end.

(** [try { body } finally { final }] *)
Definition try_finally {A} (body : M A) (final : M unit) : M A :=
  fun w =>
    match body w with
    | (c, w') =>
        match final w' with
        | (Normal _, w'') => (c, w'')
        | (Throw e, w'') => (Throw e, w'')
        end
    end.

Declare Scope handler_scope.
Delimit Scope handler_scope with handler.

Notation "x <- m ;; k" := (bind m (fun x => k))
  (at level 100, m at next level, right associativity) : handler_scope.
Notation "m ;;; k" := (bind m (fun _ => k))
  (at level 100, right associativity) : handler_scope.

(** [res.status(c).json(b)] *)
Definition res_json (c : Z) (b : json) : M unit :=
  fun w => (Normal tt, emit (EvRespond {| status_code := c; body := b |}) w).

(** The responses sent, oldest first. *)
Fixpoint responses (t : list event) : list response :=
  match t with
  | [] => []
  | EvRespond r :: t' => r :: responses t'
  | _ :: t' => responses t'
  end.

(** How often [p] was unlinked. *)
Fixpoint unlinks (p : jsstring) (t : list event) : nat :=
  match t with
  | [] => 0
  | EvUnlink q :: t' => (if eqs p q then 1 else 0) + unlinks p t'
  | _ :: t' => unlinks p t'
  end.

(** An unlink of [p] happens in [t] only after a response was sent. *)
Fixpoint unlink_after_response (p : jsstring) (sent : bool) (t : list event)
  : bool :=
  match t with
  | [] => true
  | EvRespond _ :: t' => unlink_after_response p true t'
  | EvUnlink q :: t' =>
      (negb (eqs p q) || sent) && unlink_after_response p sent t'
  | _ :: t' => unlink_after_response p sent t'
  end.

(** The error of the file system for a path that does not exist, worded
    as Node words it: the system call and the path follow the
    description, as in [ENOENT: no such file or directory, open
    'uploads/x.png']. *)
Definition ENOENT (syscall p : jsstring) : js_error :=
  {| message := js "ENOENT: no such file or directory, " ++ syscall
                ++ js " '" ++ p ++ js "'";
     code := Some (js "ENOENT"); response_status := None; status := None |}.

(** [filePath = p] *)
Definition set_filePath (p : jsstring) : M unit :=
  fun w =>
    (Normal tt,
     {| files := files w; trace := trace w; filePath := Some p |}).

Definition get_filePath : M (option jsstring) :=
  fun w => (Normal (filePath w), w).

(** What lies outside the server: the clock, the configured credential,
    the reading of a stored file (its base64 text, or the error of the file
    system), the removal of a stored file (done, or the error of the file
    system when it refuses, such as [EPERM] or [EBUSY]), and the inference
    provider (the text of the first choice, or the error the client
    library throws). *)
Record environment := {
  now : jsstring;
  OPENAI_API_KEY : option jsstring;
  read_base64 : jsstring -> completion jsstring;
  unlink_file : jsstring -> completion unit;
  infer : jsstring -> jsstring -> completion jsstring
}.

(** [fs.unlink(p)]: a file that is there is removed unless the file
    system refuses; then it stays and the error is thrown. *)
Definition unlink (env : environment) (p : jsstring) : M unit :=
  fun w =>
    let w1 := emit (EvUnlink p) w in
    if existsb (eqs p) (files w) then
      match unlink_file env p with
      | Normal _ =>
          (Normal tt,
           {| files := filter (fun q => negb (eqs p q)) (files w1);
              trace := trace w1; filePath := filePath w1 |})
      | Throw e => (Throw e, w1)
      end
    else (Throw (ENOENT (js "unlink") p), w1).

(** [fs.readFile(p)] followed by the base64 encoding. *)
Definition readFile (env : environment) (p : jsstring) : M jsstring :=
  fun w =>
    let w1 := emit (EvReadFile p) w in
    if existsb (eqs p) (files w) then (read_base64 env p, w1)
    else (Throw (ENOENT (js "open") p), w1).

(** The call to the provider with prompt [q] and image [img], under the
    timeout (in milliseconds) the caller configures, if it does. *)
Definition call_provider (env : environment) (timeout : option Z)
           (q img : jsstring) : M jsstring :=
  fun w => (infer env q img, emit (EvInference timeout) w).

(** A string is truthy when it is not empty. *)
Definition truthy (s : option jsstring) : bool :=
  match s with
  | Some (_ :: _) => true
  | _ => false
  end.

Definition initial (fs : list jsstring) : state :=
  {| files := fs; trace := []; filePath := None |}.

End Http.

Export Http.

(* ================================================================== *)
(** * [POST /upload]: the object-detection server ([src/server.js]) *)
(* ================================================================== *)

Module Upload.

Import Detect.
Local Open Scope handler_scope.

(** [s.endsWith(suffix)] *)
Definition endsWith (suffix s : jsstring) : bool :=
  startsWith (rev suffix) (rev s).

(** [name.match(/\.(jpg|jpeg|png|gif)$/i)] is not null.  Under [/i] a code
    unit matches a letter of the pattern when it is that letter in either
    case; [$] is the end of the name. *)
Definition image_name (name : jsstring) : bool :=
  existsb (fun ext => endsWith ext (map lowerUnit name))
          [js ".jpg"; js ".jpeg"; js ".png"; js ".gif"].

(** The [fileFilter] of the upload middleware, on [file.originalname] and
    [file.mimetype] (which it does not read): [Normal true] for
    [cb(null, true)], [Throw e] for [cb(e, false)]. *)
Definition fileFilter (originalname mimetype : jsstring) : completion bool :=
  if negb (image_name originalname) then
    Throw (Error (js "Only image files are allowed!"))
  else Normal true.

(** [encodeImage]: [fs.readFileSync] and [toString('base64')]. *)
Definition encodeImage (env : environment) (imagePath : jsstring)
  : M jsstring :=
  readFile env imagePath.

Definition prompt : jsstring :=
  jsq "List all visible objects in this image. Return ONLY a JSON array of objects with labels and confidence scores. Example format: [{'label': 'car', 'confidence': 0.95}]. No other text or markdown formatting.".

(** [[{ label: `Error: ${msg}`, confidence: 0 }]] *)
Definition error_objects (msg : jsstring) : json :=
  json_of_detections
    [{| label := js "Error: " ++ msg; confidence := zero |}].

(** [analyzeImage] *)
Definition analyzeImage (env : environment) (imagePath : jsstring)
  : M jsval :=
  try_catchM
    (base64Image <- encodeImage env imagePath ;;
     content <- call_provider env None prompt base64Image ;;
     detectedObjects <- lift (extractJsonFromResponse content) ;;
     ret detectedObjects)
    (fun error => ret (Val (error_objects (message error)))).

(** An object literal handed to [res.json]: a property whose value is
    [undefined] is left out of the body. *)
Fixpoint object_literal (props : list (jsstring * jsval)) : json :=
  match props with
  | [] => JObject []
  | (k, Undefined) :: r => object_literal r
  | (k, Val v) :: r =>
      match object_literal r with
      | JObject fields => JObject ((k, v) :: fields)
      | other => other
      end
  end.

(** The handler of [app.post('/upload', ...)]. *)
Definition upload (env : environment) (req : request) : M unit :=
  try_catchM
    (match file req with
     | None => res_json 400 (JObject [(js "error", JString (js "No file uploaded"))])
     | Some f =>
         objects <- analyzeImage env (path f) ;;
         res_json 200
           (object_literal
              [(js "message",
                Val (JString (js "File uploaded and analyzed successfully")));
               (js "file", Val (json_of_file f));
               (js "objects", objects)])
     end)
    (fun error =>
       res_json 500
         (JObject [(js "error", JString (message error));
                   (js "objects", error_objects (message error))])).

End Upload.

(* ================================================================== *)
(** * [POST /analyze]: the free-form question server *)
(* ================================================================== *)

Module Analyze.

Local Open Scope handler_scope.

(** ** [path.extname] (POSIX) *)

(** The variables of the backward scan of [path.extname]. *)
Record scan := {
  startDot : Z;
  startPart : Z;
  end_ : Z;
  matchedSlash : bool;
  preDotState : Z
}.

Local Open Scope Z_scope.

(** The loop of [path.extname], from index [i] down to 0; [rpath] holds the
    code units at [i], [i - 1], ..., 0. *)
Fixpoint extname_loop (rpath : jsstring) (i : Z) (st : scan) : scan :=
  match rpath with
  | [] => st
  | c :: rest =>
      if (c =? 47)%N then
        if negb (matchedSlash st) then
          {| startDot := startDot st; startPart := i + 1; end_ := end_ st;
             matchedSlash := matchedSlash st; preDotState := preDotState st |}
        else extname_loop rest (i - 1) st
      else
        let st1 :=
          if end_ st =? -1 then
            {| startDot := startDot st; startPart := startPart st;
               end_ := i + 1; matchedSlash := false;
               preDotState := preDotState st |}
          else st in
        let st2 :=
          if (c =? 46)%N then
            if startDot st1 =? -1 then
              {| startDot := i; startPart := startPart st1; end_ := end_ st1;
                 matchedSlash := matchedSlash st1;
                 preDotState := preDotState st1 |}
            else if negb (preDotState st1 =? 1) then
              {| startDot := startDot st1; startPart := startPart st1;
                 end_ := end_ st1; matchedSlash := matchedSlash st1;
                 preDotState := 1 |}
            else st1
          else if negb (startDot st1 =? -1) then
            {| startDot := startDot st1; startPart := startPart st1;
               end_ := end_ st1; matchedSlash := matchedSlash st1;
               preDotState := -1 |}
          else st1 in
        extname_loop rest (i - 1) st2
  end.

(** [s.slice(a, b)] for [0 <= a <= b]. *)
Definition slice (a b : Z) (s : jsstring) : jsstring :=
  firstn (Z.to_nat (b - a)) (skipn (Z.to_nat a) s).

(** [path.extname(p)]: from the last dot of the last portion of [p] to its
    end; empty when there is no dot, when the only dot starts the portion,
    or when the portion is [..]. *)
Definition extname (p : jsstring) : jsstring :=
  let st := extname_loop (rev p) (Z.of_nat (length p) - 1)
              {| startDot := -1; startPart := 0; end_ := -1;
                 matchedSlash := true; preDotState := 0 |} in
  if (startDot st =? -1) || (end_ st =? -1) || (preDotState st =? 0) ||
     ((preDotState st =? 1) && (startDot st =? end_ st - 1) &&
      (startDot st =? startPart st + 1))
  then []
  else slice (startDot st) (end_ st) p.

(** ** [fileFilter] *)

Definition allowedMimeTypes : list jsstring :=
  [js "image/jpeg"; js "image/jpg"; js "image/png"; js "image/gif"].

Definition allowedExtensions : list jsstring :=
  [js ".jpeg"; js ".jpg"; js ".png"; js ".gif"].

Definition normalizedMimeType (originalname mimetype : jsstring) : jsstring :=
  if eqs mimetype (js "application/octet-stream")
  then js "image/" ++ slice1 (toLowerCase (extname originalname))
  else mimetype.

Definition extension (originalname : jsstring) : jsstring :=
  toLowerCase (extname originalname).

Definition isValidMimeType (originalname mimetype : jsstring) : bool :=
  mem (toLowerCase (normalizedMimeType originalname mimetype)) allowedMimeTypes.

Definition isValidExtension (originalname : jsstring) : bool :=
  mem (extension originalname) allowedExtensions.

Definition invalid_file_type (originalname mimetype : jsstring) : js_error :=
  Error (js "Invalid file type. Received mimetype: "
         ++ normalizedMimeType originalname mimetype
         ++ js ", extension: " ++ extension originalname
         ++ js ". Allowed types: JPEG, PNG and GIF").

(** [fileFilter]: [Normal true] for [cb(null, true)], [Throw e] for
    [cb(e, false)]. *)
Definition fileFilter (originalname mimetype : jsstring) : completion bool :=
  if isValidMimeType originalname mimetype || isValidExtension originalname
  then Normal true
  else Throw (invalid_file_type originalname mimetype).

(** ** The handler *)

(** [encodeImage] *)
Definition encodeImage (env : environment) (filePath : jsstring)
  : M jsstring :=
  try_catchM
    (readFile env filePath)
    (fun error => throw (Error (js "Error encoding image: " ++ message error))).

(** [cleanupFile] *)
Definition cleanupFile (env : environment) (filePath : jsstring) : M unit :=
  try_catchM (unlink env filePath) (fun error => ret tt).

(** [error.message || 'An error occurred during analysis'] *)
Definition message_or_default (error : js_error) : jsstring :=
  match message error with
  | [] => js "An error occurred during analysis"
  | m => m
  end.

Definition errorResponse (env : environment) (msg : jsstring) : json :=
  JObject [(js "status", JString (js "error"));
           (js "error", JString msg);
           (js "timestamp", JString (now env))].

(** [error.response?.status] when it is truthy: present and not 0. *)
Definition upstream_status (error : js_error) : option Z :=
  match response_status error with
  | Some st => if st =? 0 then None else Some st
  | None => None
  end.

(** [error.code === 'ECONNABORTED'] *)
Definition timed_out (error : js_error) : bool :=
  match code error with
  | Some c => eqs c (js "ECONNABORTED")
  | None => false
  end.

(** [req.body.question || "What is in this image?"] *)
Definition asked (req : request) : jsstring :=
  match question req with
  | Some (c :: q) => c :: q
  | _ => js "What is in this image?"
  end.

(** [timeout: 30000] *)
Definition timeout : Z := 30000.

(** The body of the [try] block. *)
Definition analyze_try (env : environment) (req : request) : M unit :=
  (f <- match file req with
        | None => throw (Error (js "No image file provided"))
        | Some f => ret f
        end ;;
   set_filePath (path f) ;;;
   let question := asked req in
   base64Image <- encodeImage env (path f) ;;
   (if negb (truthy (OPENAI_API_KEY env))
    then throw (Error (js "OpenAI API key not configured"))
    else ret tt) ;;;
   content <- call_provider env (Some timeout) question base64Image ;;
   res_json 200
     (JObject [(js "status", JString (js "success"));
               (js "response", JString content);
               (js "timestamp", JString (now env))]))%handler.

(** The [catch] block. *)
Definition analyze_catch (env : environment) (error : js_error) : M unit :=
  let errorResponse := errorResponse env (message_or_default error) in
  match upstream_status error with
  | Some st => res_json st errorResponse
  | None =>
      if timed_out error then
        res_json 504
          (match errorResponse with
           | JObject fields =>
               JObject (obj_set (js "error")
                          (JString (js "Request timeout. Please try again."))
                          fields)
           | other => other
           end)
      else if includes (js "file type") (message error) then
        res_json 415 errorResponse
      else res_json 500 errorResponse
  end.

(** The [finally] block.  [filePath] is [null] or the [path] the upload
    middleware gave the stored file, which is the destination directory
    followed by the generated name and so never the empty string; on these
    values the test [if (filePath)] is the test for [null]. *)
Definition analyze_finally (env : environment) : M unit :=
  (p <- get_filePath ;;
   match p with
   | Some filePath => cleanupFile env filePath
   | None => ret tt
   end)%handler.

(** The handler of [app.post('/analyze', ...)]. *)
Definition analyze (env : environment) (req : request) : M unit :=
  try_finally
    (try_catchM (analyze_try env req) (analyze_catch env))
    (analyze_finally env).

End Analyze.

(* ================================================================== *)
(** * Occurrences of a code unit *)
(* ================================================================== *)

(** [c] does not occur in [s]. *)
Abbreviation absent c s := (forallb (fun x => negb (N.eqb x c)) s = true).


(* ================================================================== *)
(** * The names of the stored files *)
(* ================================================================== *)

(** [Date.now()] and [Math.round(Math.random() * 1E9)] are non-negative
    integers below 10^21, which print as their decimal digits. *)

(** The [filename] function of the disk storage of [server.js]. *)
Module UploadStorage.

(** [Date.now() + path.extname(file.originalname)] *)
Definition filename (now : N) (originalname : jsstring) : jsstring :=
  digits_of_N now ++ Analyze.extname originalname.

End UploadStorage.

(** The [filename] function of the disk storage of the [/analyze] server. *)
Module AnalyzeStorage.

Definition uniqueSuffix (now random : N) : jsstring :=
  digits_of_N now ++ js "-" ++ digits_of_N random.

Definition filename (fieldname : jsstring) (now random : N)
                    (originalname : jsstring) : jsstring :=
  fieldname ++ js "-" ++ uniqueSuffix now random
  ++ Analyze.extname originalname.

End AnalyzeStorage.

(* ================================================================== *)
(** * The route [/analyze]: the upload middleware before the handler *)
(* ================================================================== *)

Module AnalyzeRoute.

(** What the multipart upload hands to its callback when it fails: an
    instance of [multer.MulterError], or another error, such as the one
    the file filter makes. *)
Inductive upload_error : Type :=
| MulterError (err : js_error)
| OtherError (err : js_error).

(** [uploadMiddleware]; [err] is the argument of the callback of
    [upload(req, res, ...)], [None] for [undefined], and [next] is the
    rest of the route. *)
Definition uploadMiddleware (err : option upload_error) (next : M unit)
  : M unit :=
  match err with
  | Some (MulterError err) =>
      res_json 400
        (JObject [(js "status", JString (js "error"));
                  (js "error", JString (js "Upload error: " ++ message err));
                  (js "code", JString (js "MULTER_ERROR"))])
  | Some (OtherError err) =>
      res_json 400
        (JObject [(js "status", JString (js "error"));
                  (js "error", JString (message err));
                  (js "code", JString (js "UPLOAD_ERROR"))])
  | None => next
  end.

(** [app.post('/analyze', uploadMiddleware, async (req, res) => ...)] *)
Definition route (env : environment) (err : option upload_error)
                 (req : request) : M unit :=
  uploadMiddleware err (Analyze.analyze env req).

End AnalyzeRoute.

(* ================================================================== *)
(** * Further sample values *)
(* ================================================================== *)

Module Cases.

(** A file sent as [image/png] under the name [scan.file type], as the
    upload middleware of [/analyze] stores it. *)
Definition odd_png : multer_file :=
  {| fieldname := js "image";
     originalname := js "scan.file type";
     encoding := js "7bit";
     mimetype := js "image/png";
     destination := js "uploads/";
     filename := js "image-1700000000000-123456789.file type";
     path := js "uploads/image-1700000000000-123456789.file type";
     size := 1024 |}.

(** An error that carries both a response status and the code of a
    timeout. *)
Definition busy_and_timed_out : js_error :=
  {| message := js "Request failed with status code 503";
     code := Some (js "ECONNABORTED");
     response_status := Some 503%Z; status := None |}.

End Cases.

(* ================================================================== *)
(** * Sample requests and environments *)
(* ================================================================== *)

Module Samples.

Import Detect.

Definition cat_png : multer_file :=
  {| fieldname := js "image"; originalname := js "cat.png";
     encoding := js "7bit"; mimetype := js "image/png";
     destination := js "uploads/"; filename := js "1700000000000.png";
     path := js "uploads/1700000000000.png"; size := 2048 |}.

Definition cat_request : request :=
  {| file := Some cat_png; question := None |}.

Definition scratch : list jsstring := [path cat_png].

(** The provider answers 429. *)
Definition too_many_requests : js_error :=
  {| message := js "Request failed with status code 429";
     code := Some (js "ERR_BAD_REQUEST");
     response_status := Some 429%Z; status := Some 429%Z |}.

(** The HTTP client gave up after its timeout. *)
Definition timeout_exceeded : js_error :=
  {| message := js "timeout of 30000ms exceeded";
     code := Some (js "ECONNABORTED");
     response_status := None; status := None |}.

Definition env_answering (content : jsstring) : environment :=
  {| now := js "2024-01-01T00:00:00.000Z";
     OPENAI_API_KEY := Some (js "sk-test");
     read_base64 := fun _ => Normal (js "iVBORw0KGgo=");
     unlink_file := fun _ => Normal tt;
     infer := fun _ _ => Normal content |}.

Definition env_failing (e : js_error) : environment :=
  {| now := js "2024-01-01T00:00:00.000Z";
     OPENAI_API_KEY := Some (js "sk-test");
     read_base64 := fun _ => Normal (js "iVBORw0KGgo=");
     unlink_file := fun _ => Normal tt;
     infer := fun _ _ => Throw e |}.

(** The file system refuses to remove a file. *)
Definition operation_not_permitted (p : jsstring) : js_error :=
  {| message := js "EPERM: operation not permitted, unlink '" ++ p ++ js "'";
     code := Some (js "EPERM");
     response_status := None; status := None |}.

(** [env] on a file system that refuses every removal. *)
Definition refusing_unlink (env : environment) : environment :=
  {| now := now env;
     OPENAI_API_KEY := OPENAI_API_KEY env;
     read_base64 := read_base64 env;
     unlink_file := fun p => Throw (operation_not_permitted p);
     infer := infer env |}.

Definition cat_and_dog : list Detection :=
  [{| label := js "cat"; confidence := {| mant := 95; expo := -2 |} |};
   {| label := jsq "dog 'Rex'"; confidence := {| mant := 1; expo := 0 |} |};
   {| label := js "leaf"; confidence := {| mant := 15; expo := -8 |} |}].

Definition partly_valid : jsstring :=
  jsq "[{'label':'cat','confidence':0.9},{'label':'dog'}]".

(** The empty string. *)
Definition empty_text : jsstring := [].

End Samples.

(* ================================================================== *)
(** * The response extractor *)
(* ================================================================== *)

Import Detect.

Lemma parsed_Normal text v :
  JSON_parse text = Normal v -> parsed text = Normal (Val v).
Proof. unfold parsed. intros ->. reflexivity. Qed.

Lemma parsed_Throw text e :
  JSON_parse text = Throw e -> parsed text = Throw e.
Proof. unfold parsed. intros ->. reflexivity. Qed.

(** [extractJsonFromResponse] runs through the layers in their order. *)
Lemma extract_layers text : extraction text (extractJsonFromResponse text).
Proof.
  unfold extractJsonFromResponse.
  destruct (JSON_parse text) as [v | e] eqn:Hwhole.
  - rewrite (parsed_Normal _ Hwhole). now apply ByWholeText.
  - rewrite (parsed_Throw _ Hwhole). cbn [try_catch].
    destruct (JSON_parse (trim (replace_fences text))) as [v | e2] eqn:Hstrip.
    + rewrite (parsed_Normal _ Hstrip). now apply ByStrippedText with e.
    + rewrite (parsed_Throw _ Hstrip). cbn [try_catch].
      destruct (match_array text) as [m | ] eqn:Hm.
      * destruct (JSON_parse m) as [v | e3] eqn:Hbr.
        -- rewrite (parsed_Normal _ Hbr). now apply ByBracketed with e e2 m.
        -- rewrite (parsed_Throw _ Hbr). now apply BySentinel with e e2 m e3.
      * now apply ByNoReturn with e e2.
Qed.

(** C1, as the code has it: for every string, [extractJsonFromResponse]
    completes without raising.  Its result is a JSON value whenever the
    text holds a bracketed substring, and it is the parsed value itself,
    of whatever shape, whenever the whole text parses. *)
Theorem extractJsonFromResponse_never_raises :
  forall text : jsstring,
  exists r : jsval,
    extractJsonFromResponse text = Normal r /\
    (forall m, match_array text = Some m -> exists v, r = Val v) /\
    (forall v, JSON_parse text = Normal v -> r = Val v).
Proof.
  intros text.
  destruct (extract_layers text) as
    [v Hw | e v Hw Hs | e e2 m v Hw Hs Hm Hb | e e2 m e3 Hw Hs Hm Hb
     | e e2 Hw Hs Hm];
    eexists; (split; [reflexivity | split]);
    try (intros ? ?; eexists; reflexivity);
    try (intros ? Hv; congruence).
Qed.

(** C1, against the claim as stated: the text [42] parses, and the number
    42 comes back, which is no list of Detections. *)
Lemma extract_number_is_no_detection_list :
  exists r : jsval,
    extractJsonFromResponse (js "42") = Normal r /\
    r = Val (JNumber {| mant := 42; expo := 0 |}) /\
    isDetectionList r = false.
Proof. eexists. repeat split. Qed.

(** C7, at the failing input: for the empty text none of the three parses
    succeeds, no bracketed substring is found, and the function ends
    without returning: the result is [undefined], not the sentinel list. *)
Theorem extract_empty_text_returns_undefined :
  JSON_parse Samples.empty_text = Throw SyntaxError /\
  JSON_parse (trim (replace_fences Samples.empty_text)) = Throw SyntaxError /\
  match_array Samples.empty_text = None /\
  extractJsonFromResponse Samples.empty_text = Normal Undefined.
Proof. repeat split. Qed.

(** The same for prose without brackets. *)
Example extract_prose_returns_undefined :
  extractJsonFromResponse (js "I can see a cat and a dog.") = Normal Undefined.
Proof. reflexivity. Qed.

(** The sentinel is returned when a bracketed substring is found and does
    not parse (here, truncated JSON followed by a bracketed remark). *)
Example extract_truncated_returns_sentinel :
  extractJsonFromResponse (jsq "[{'label': 'car', 'confi [cut]")
  = Normal (Val sentinel).
Proof. vm_compute. reflexivity. Qed.

(** JSON inside a markdown fence: the whole text does not parse, the text
    without the fence does. *)
Example extract_fenced :
  let text := js "```json" ++ [LF]
              ++ jsq "[{'label': 'car', 'confidence': 0.95}]"
              ++ [LF] ++ js "```" in
  JSON_parse text = Throw SyntaxError /\
  extractJsonFromResponse text
  = Normal (Val (json_of_detections
                   [{| label := js "car";
                       confidence := {| mant := 95; expo := -2 |} |}])).
Proof. vm_compute. split; reflexivity. Qed.

(** C8, as the code has it: a value that extraction returns is the
    sentinel, or it is what [JSON.parse] made of the whole text, of the
    text without fences, or of the bracketed substring, handed on without a
    look at its elements. *)
Theorem extract_returns_parsed_or_sentinel :
  forall (text : jsstring) (v : json),
    extractJsonFromResponse text = Normal (Val v) ->
    v = sentinel \/
    JSON_parse text = Normal v \/
    JSON_parse (trim (replace_fences text)) = Normal v \/
    (exists m, match_array text = Some m /\ JSON_parse m = Normal v).
Proof.
  intros text v H.
  destruct (extract_layers text) as
    [v' Hw | e v' Hw Hs | e e2 m v' Hw Hs Hm Hb | e e2 m e3 Hw Hs Hm Hb
     | e e2 Hw Hs Hm];
    inversion H; subst; eauto 6.
Qed.

Lemma extract_returns_parsed_or_sentinel_witness :
  JNumber {| mant := 42; expo := 0 |} = sentinel \/
  JSON_parse (js "42") = Normal (JNumber {| mant := 42; expo := 0 |}) \/
  JSON_parse (trim (replace_fences (js "42")))
  = Normal (JNumber {| mant := 42; expo := 0 |}) \/
  (exists m, match_array (js "42") = Some m /\
             JSON_parse m = Normal (JNumber {| mant := 42; expo := 0 |})).
Proof.
  apply (extract_returns_parsed_or_sentinel (js "42")).
  reflexivity.
Defined.

(** The sentinel is a single well-formed Detection with confidence 0. *)
Lemma sentinel_well_formed :
  isDetectionList (Val sentinel) = true /\
  sentinel = JArray [JObject [(js "label", JString (js "Error parsing objects"));
                              (js "confidence", JNumber zero)]].
Proof. split; reflexivity. Qed.

(** C8, against the claim as stated: a list whose second element lacks a
    confidence comes back as it was parsed; it is neither a list of
    well-formed Detections nor the sentinel. *)
Lemma extract_partly_valid_list :
  exists r : jsval,
    extractJsonFromResponse Samples.partly_valid = Normal r /\
    isDetectionList r = false /\
    r <> Val sentinel.
Proof.
  eexists. split; [vm_compute; reflexivity | split; [reflexivity | discriminate]].
Qed.

(* ================================================================== *)
(** * The upload validators *)
(* ================================================================== *)

Lemma startsWith_app p s : startsWith p (p ++ s) = true.
Proof.
  induction p as [ | c p IH]; cbn; [reflexivity | ].
  now rewrite N.eqb_refl, IH.
Qed.

Lemma eqs_refl s : eqs s s = true.
Proof.
  induction s as [ | c s IH]; cbn; [reflexivity | ].
  now rewrite N.eqb_refl, IH.
Qed.

Lemma eqs_eq a b : eqs a b = true <-> a = b.
Proof.
  split; [ | intros ->; apply eqs_refl].
  revert b; induction a as [ | x a IH]; intros [ | y b]; cbn;
    try discriminate; [reflexivity | ].
  intros H. apply andb_true_iff in H as [Hx Hab].
  apply N.eqb_eq in Hx. now rewrite Hx, (IH _ Hab).
Qed.

(** A MIME type of the allow-set is not the generic binary marker, so the
    normalisation leaves it alone. *)
Lemma allowed_mime_is_kept name mime :
  mem (toLowerCase mime) Analyze.allowedMimeTypes = true ->
  Analyze.normalizedMimeType name mime = mime.
Proof.
  unfold Analyze.normalizedMimeType.
  destruct (eqs mime (js "application/octet-stream")) eqn:E; [ | reflexivity].
  apply eqs_eq in E. subst mime. discriminate.
Qed.

(** C3, as the code has it.  The filter of [/analyze] accepts exactly when
    the lower-cased normalised MIME type is allowed or the lower-cased
    extension is allowed; an allowed MIME type passes whatever the
    extension is, and so does an allowed extension whatever the MIME type
    is; when both tests fail the file is rejected with the error whose
    message starts with [Invalid file type].  The filter of [/upload]
    looks at the name only: it accepts exactly the names that end in
    [.jpg], [.jpeg], [.png] or [.gif], in either case, and rejects the
    others with [Only image files are allowed!]. *)
Theorem fileFilter_policy :
  (forall name mime,
      Analyze.fileFilter name mime = Normal true <->
      mem (toLowerCase (Analyze.normalizedMimeType name mime))
          Analyze.allowedMimeTypes = true \/
      mem (toLowerCase (Analyze.extname name)) Analyze.allowedExtensions = true) /\
  (forall name mime,
      mem (toLowerCase mime) Analyze.allowedMimeTypes = true ->
      Analyze.fileFilter name mime = Normal true) /\
  (forall name mime,
      mem (toLowerCase (Analyze.extname name)) Analyze.allowedExtensions = true ->
      Analyze.fileFilter name mime = Normal true) /\
  (forall name mime,
      mem (toLowerCase (Analyze.normalizedMimeType name mime))
          Analyze.allowedMimeTypes = false ->
      mem (toLowerCase (Analyze.extname name)) Analyze.allowedExtensions = false ->
      exists e,
        Analyze.fileFilter name mime = Throw e /\
        startsWith (js "Invalid file type") (message e) = true) /\
  (forall name mime,
      Upload.fileFilter name mime
      = if Upload.image_name name then Normal true
        else Throw (Error (js "Only image files are allowed!"))).
Proof.
  assert (Hiff : forall name mime,
      Analyze.fileFilter name mime = Normal true <->
      mem (toLowerCase (Analyze.normalizedMimeType name mime))
          Analyze.allowedMimeTypes = true \/
      mem (toLowerCase (Analyze.extname name)) Analyze.allowedExtensions = true).
  { intros name mime. unfold Analyze.fileFilter, Analyze.isValidMimeType,
      Analyze.isValidExtension, Analyze.extension.
    rewrite <- orb_true_iff.
    destruct (_ || _); split; intros H; try reflexivity; discriminate. }
  split; [exact Hiff | ].
  split; [ | split; [ | split]].
  - intros name mime H. apply Hiff. left.
    now rewrite (allowed_mime_is_kept name mime H).
  - intros name mime H. apply Hiff. now right.
  - intros name mime Hm He.
    unfold Analyze.fileFilter, Analyze.isValidMimeType,
      Analyze.isValidExtension, Analyze.extension.
    rewrite Hm, He. cbn [orb]. eexists. split; [reflexivity | ].
    unfold Analyze.invalid_file_type, Error. cbn [message].
    change (js "Invalid file type. Received mimetype: ")
      with (js "Invalid file type" ++ js ". Received mimetype: ").
    rewrite <- app_assoc. apply startsWith_app.
  - intros name mime. unfold Upload.fileFilter.
    now destruct (Upload.image_name name).
Qed.

Lemma fileFilter_policy_witness :
  Analyze.fileFilter (js "photo.txt") (js "image/png") = Normal true /\
  Analyze.fileFilter (js "photo.PNG") (js "text/plain") = Normal true /\
  exists e,
    Analyze.fileFilter (js "notes.txt") (js "text/plain") = Throw e /\
    startsWith (js "Invalid file type") (message e) = true.
Proof.
  destruct fileFilter_policy as (_ & Hmime & Hext & Hrej & _).
  split; [apply Hmime; reflexivity | ].
  split; [apply Hext; reflexivity | ].
  apply Hrej; reflexivity.
Defined.

(** C3, against the claim as stated: the filter of [/upload] rejects a
    file whose MIME type is allowed and whose extension is not. *)
Lemma upload_filter_rejects_allowed_mime :
  mem (js "image/png") Analyze.allowedMimeTypes = true /\
  Upload.fileFilter (js "photo.txt") (js "image/png")
  = Throw (Error (js "Only image files are allowed!")).
Proof. split; reflexivity. Qed.

(* ================================================================== *)
(** * The request pipelines *)
(* ================================================================== *)

Lemma not_in_filter p fs : ~ In p (filter (fun q => negb (eqs p q)) fs).
Proof.
  intros H. apply filter_In in H as [_ H]. now rewrite eqs_refl in H.
Qed.

Lemma not_in_of_existsb p fs : existsb (eqs p) fs = false -> ~ In p fs.
Proof.
  intros H Hin.
  assert (existsb (eqs p) fs = true) as E
      by (apply existsb_exists; exists p; split; [exact Hin | apply eqs_refl]).
  congruence.
Qed.

(** Unfold the handlers and the primitives of the monad. *)
Ltac step_handler :=
  cbv beta iota zeta delta
    [Analyze.analyze Analyze.analyze_try Analyze.analyze_catch
     Analyze.analyze_finally Analyze.encodeImage Analyze.cleanupFile
     Upload.upload Upload.analyzeImage Upload.encodeImage
     try_finally try_catchM readFile call_provider unlink set_filePath
     get_filePath res_json bind ret throw emit initial lift threw
     files trace filePath fst snd].

(** Follow every branch the environment can take. *)
Ltac split_handler :=
  repeat (step_handler;
          match goal with
          | |- context [match ?x with Normal _ => _ | Throw _ => _ end] =>
              destruct x eqn:?
          | |- context [match ?x with Some _ => _ | None => _ end] =>
              destruct x eqn:?
          | |- context [if ?c then _ else _] => destruct c eqn:?
          end);
  step_handler.

Ltac read_trace :=
  cbn [app unlinks unlink_after_response responses length map];
  rewrite ?eqs_refl; cbn [negb orb andb Nat.add].

(** C2, as the code has it.  [/analyze]: when the request carries a file,
    its path is unlinked exactly once, after the one response has been
    sent, whichever branch was taken; the file is gone afterwards when the
    file system carries the unlink out, and when it refuses the file stays,
    the error is swallowed and the handler ends as usual.  [/upload]: the
    handler unlinks nothing and leaves the scratch directory as it found
    it. *)
Theorem cleanup_in_analyze_only :
  (forall env req f fs,
      file req = Some f ->
      let w' := snd (Analyze.analyze env req (initial fs)) in
      unlinks (path f) (trace w') = 1%nat /\
      unlink_after_response (path f) false (trace w') = true /\
      length (responses (trace w')) = 1%nat /\
      (unlink_file env (path f) = Normal tt -> ~ In (path f) (files w')) /\
      (forall e,
          unlink_file env (path f) = Throw e ->
          files w' = fs /\
          fst (Analyze.analyze env req (initial fs)) = Normal tt)) /\
  (forall env req fs,
      let w' := snd (Upload.upload env req (initial fs)) in
      files w' = fs /\ forall p, unlinks p (trace w') = 0%nat).
Proof.
  split.
  - intros env req f fs Hf. step_handler. rewrite Hf.
    split_handler; read_trace;
      (split; [reflexivity | ]); (split; [reflexivity | ]);
      (split; [reflexivity | ]);
      (split; [intros Hdone | intros e' Hrefused]);
      try congruence;
      try apply not_in_filter;
      try (apply not_in_of_existsb; assumption);
      try (split; reflexivity).
  - intros env req fs.
    split_handler; read_trace; split; try reflexivity; intros p; reflexivity.
Qed.

Lemma cleanup_in_analyze_only_witness :
  let w' := snd (Analyze.analyze (Samples.env_failing Samples.timeout_exceeded)
                   Samples.cat_request (initial Samples.scratch)) in
  unlinks (path Samples.cat_png) (trace w') = 1%nat /\
  unlink_after_response (path Samples.cat_png) false (trace w') = true /\
  length (responses (trace w')) = 1%nat /\
  ~ In (path Samples.cat_png) (files w').
Proof.
  destruct cleanup_in_analyze_only as [Hanalyze _].
  destruct (Hanalyze (Samples.env_failing Samples.timeout_exceeded)
              Samples.cat_request Samples.cat_png Samples.scratch eq_refl)
    as (Honce & Hafter & Hone & Hgone & _).
  split; [exact Honce | ]. split; [exact Hafter | ]. split; [exact Hone | ].
  apply Hgone. reflexivity.
Defined.

(** When the file system refuses the unlink, the request is answered as
    before and the file outlives it. *)
Example refused_unlink_leaves_the_file :
  let env := Samples.refusing_unlink (Samples.env_answering (js "A cat.")) in
  let w' := snd (Analyze.analyze env Samples.cat_request
                   (initial Samples.scratch)) in
  map status_code (responses (trace w')) = [200%Z] /\
  unlinks (path Samples.cat_png) (trace w') = 1%nat /\
  existsb (eqs (path Samples.cat_png)) (files w') = true.
Proof. vm_compute. repeat split. Qed.

(** C2, against the claim as stated: after [/upload] has answered, the
    uploaded file is still in the scratch directory and was never
    unlinked. *)
Lemma upload_keeps_the_file :
  let w' := snd (Upload.upload (Samples.env_answering (js "[]"))
                   Samples.cat_request (initial Samples.scratch)) in
  map status_code (responses (trace w')) = [200%Z] /\
  unlinks (path Samples.cat_png) (trace w') = 0%nat /\
  existsb (eqs (path Samples.cat_png)) (files w') = true.
Proof. vm_compute. repeat split. Qed.

(** C4, as the code has it.  [/analyze] sends one response; its [status]
    is [error] exactly when the [try] block threw (no file, the file could
    not be read, no credential, the provider or the transport failed), and
    [success] with HTTP 200 otherwise.  [/upload], for a request with a
    file, answers HTTP 200 with the success message and neither a [status]
    nor an [error] property, whether or not reading or inference failed. *)
Theorem status_error_iff_exception :
  (forall env req fs,
      exists r,
        responses (trace (snd (Analyze.analyze env req (initial fs)))) = [r] /\
        prop (js "status") (body r)
        = Some (JString
                  (if threw (fst (Analyze.analyze_try env req (initial fs)))
                   then js "error" else js "success")) /\
        (threw (fst (Analyze.analyze_try env req (initial fs))) = false ->
         status_code r = 200%Z)) /\
  (forall env req f fs,
      file req = Some f ->
      exists b,
        responses (trace (snd (Upload.upload env req (initial fs))))
        = [{| status_code := 200; body := b |}] /\
        prop (js "message") b
        = Some (JString (js "File uploaded and analyzed successfully")) /\
        prop (js "status") b = None /\
        prop (js "error") b = None).
Proof.
  split.
  - intros env req fs.
    split_handler; read_trace;
      try (exfalso; cbn in *; congruence);
      eexists; (split; [reflexivity | ]);
      cbn; (split; [reflexivity | ]); intros; congruence.
  - intros env req f fs Hf. step_handler. rewrite Hf.
    split_handler; read_trace;
      try match goal with j : jsval |- _ => destruct j end;
      eexists; (split; [reflexivity | ]); cbn; repeat split.
Qed.

Lemma status_error_iff_exception_witness :
  exists b,
    responses (trace (snd (Upload.upload
                             (Samples.env_failing Samples.too_many_requests)
                             Samples.cat_request (initial Samples.scratch))))
    = [{| status_code := 200; body := b |}] /\
    prop (js "message") b
    = Some (JString (js "File uploaded and analyzed successfully")) /\
    prop (js "status") b = None /\
    prop (js "error") b = None.
Proof.
  destruct status_error_iff_exception as [_ Hupload].
  apply (Hupload (Samples.env_failing Samples.too_many_requests)
           Samples.cat_request Samples.cat_png Samples.scratch).
  reflexivity.
Defined.

(** C4, against the claim as stated: in [/upload] the file cannot be read
    (it is not in the scratch directory), [encodeImage] throws, and the
    response is HTTP 200 with the success message. *)
Lemma upload_answers_success_after_exception :
  let env := Samples.env_answering (js "[]") in
  threw (fst (Upload.encodeImage env (path Samples.cat_png) (initial []))) = true /\
  exists b,
    responses (trace (snd (Upload.upload env Samples.cat_request (initial []))))
    = [{| status_code := 200; body := b |}] /\
    prop (js "message") b
    = Some (JString (js "File uploaded and analyzed successfully")) /\
    prop (js "status") b = None.
Proof.
  cbv zeta. split; [reflexivity | ].
  eexists. split; [vm_compute; reflexivity | split; reflexivity].
Qed.

(** C5, as the code has it.  [/analyze]: when the provider's error carries
    a response status, that status is the status of the one response.
    [/upload]: the error of the provider is caught in [analyzeImage], the
    response is HTTP 200, and the message of the error is the label of the
    one object. *)
Theorem provider_status_passed_through_in_analyze :
  (forall env req f fs b e st,
      file req = Some f ->
      existsb (eqs (path f)) fs = true ->
      read_base64 env (path f) = Normal b ->
      truthy (OPENAI_API_KEY env) = true ->
      infer env (Analyze.asked req) b = Throw e ->
      Analyze.upstream_status e = Some st ->
      responses (trace (snd (Analyze.analyze env req (initial fs))))
      = [{| status_code := st;
            body := Analyze.errorResponse env (Analyze.message_or_default e) |}]) /\
  (forall env req f fs b e,
      file req = Some f ->
      existsb (eqs (path f)) fs = true ->
      read_base64 env (path f) = Normal b ->
      infer env Upload.prompt b = Throw e ->
      responses (trace (snd (Upload.upload env req (initial fs))))
      = [{| status_code := 200;
            body := JObject
                      [(js "message",
                        JString (js "File uploaded and analyzed successfully"));
                       (js "file", json_of_file f);
                       (js "objects", Upload.error_objects (message e))] |}]).
Proof.
  split.
  - intros env req f fs b e st Hf Hex Hread Hkey Hinfer Hst.
    step_handler. rewrite Hf. step_handler.
    rewrite Hex, Hread. step_handler. rewrite Hkey. cbn [negb]. step_handler.
    rewrite Hinfer. step_handler. rewrite Hst. step_handler.
    rewrite Hex. now destruct (unlink_file env (path f)).
  - intros env req f fs b e Hf Hex Hread Hinfer.
    step_handler. rewrite Hf. step_handler.
    rewrite Hex, Hread. step_handler. rewrite Hinfer. reflexivity.
Qed.

Lemma provider_status_passed_through_in_analyze_witness :
  responses (trace (snd (Analyze.analyze
                           (Samples.env_failing Samples.too_many_requests)
                           Samples.cat_request (initial Samples.scratch))))
  = [{| status_code := 429;
        body := Analyze.errorResponse
                  (Samples.env_failing Samples.too_many_requests)
                  (Analyze.message_or_default Samples.too_many_requests) |}].
Proof.
  destruct provider_status_passed_through_in_analyze as [Hanalyze _].
  apply (Hanalyze (Samples.env_failing Samples.too_many_requests)
           Samples.cat_request Samples.cat_png Samples.scratch
           (js "iVBORw0KGgo=") Samples.too_many_requests 429%Z);
    reflexivity.
Defined.

(** C5, against the claim as stated: the provider answers 429 and
    [/upload] answers 200. *)
Lemma upload_answers_200_on_provider_429 :
  status Samples.too_many_requests = Some 429%Z /\
  infer (Samples.env_failing Samples.too_many_requests) Upload.prompt
        (js "iVBORw0KGgo=") = Throw Samples.too_many_requests /\
  map status_code
      (responses (trace (snd (Upload.upload
                                (Samples.env_failing Samples.too_many_requests)
                                Samples.cat_request (initial Samples.scratch)))))
  = [200%Z].
Proof. vm_compute. repeat split. Qed.




(** The timeout status differs from what the pass-through gives for the
    429 of the provider. *)
Example timeout_is_not_passthrough :
  map status_code
      (responses (trace (snd (Analyze.analyze
                                (Samples.env_failing Samples.too_many_requests)
                                Samples.cat_request (initial Samples.scratch)))))
  = [429%Z] /\
  map status_code
      (responses (trace (snd (Analyze.analyze
                                (Samples.env_failing Samples.timeout_exceeded)
                                Samples.cat_request (initial Samples.scratch)))))
  = [504%Z].
Proof. vm_compute. split; reflexivity. Qed.




(* ================================================================== *)
(** * The round trip through [JSON.stringify] and [JSON.parse] *)
(* ================================================================== *)

Unset Implicit Arguments.

Local Open Scope N_scope.

(** Division and remainder by a constant, for [lia]. *)
Ltac Zify.zify_post_hook ::= Z.to_euclidean_division_equations.

(** ** Digits *)

Lemma digits_fuel_app f : forall n acc,
  digits_fuel f n acc = digits_fuel f n [] ++ acc.
Proof.
  induction f as [ | f IH]; intros n acc; cbn; [reflexivity | ].
  destruct (n <? 10); [reflexivity | ].
  rewrite (IH _ (_ :: acc)), (IH _ [_]), <- app_assoc. reflexivity.
Qed.

Lemma digits_fuel_step f n :
  digits_fuel (S f) n [] =
  if n <? 10 then [48 + n mod 10]
  else digits_fuel f (n / 10) [] ++ [48 + n mod 10].
Proof.
  cbn. destruct (n <? 10); [reflexivity | apply digits_fuel_app].
Qed.

Lemma digits_value_snoc ds d :
  digits_value (ds ++ [d]) = 10 * digits_value ds + (d - 48).
Proof. unfold digits_value. now rewrite fold_left_app. Qed.

Lemma digits_fuel_value f : forall n,
  n < 2 ^ N.of_nat f -> digits_value (digits_fuel f n []) = n.
Proof.
  induction f as [ | f IH]; intros n Hn.
  - cbn in Hn |- *. lia.
  - rewrite digits_fuel_step. destruct (n <? 10) eqn:E.
    + apply N.ltb_lt in E. unfold digits_value; cbn [fold_left].
      rewrite N.mod_small by lia. lia.
    + apply N.ltb_ge in E. rewrite digits_value_snoc, IH.
      * lia.
      * rewrite Nat2N.inj_succ, N.pow_succ_r' in Hn.
        apply N.Div0.div_lt_upper_bound. lia.
Qed.

Lemma fuel_enough n : n < 2 ^ N.of_nat (N.to_nat (N.succ (N.log2 n))).
Proof.
  rewrite N2Nat.id. destruct (N.eq_dec n 0) as [-> | Hn]; [reflexivity | ].
  apply N.log2_spec. lia.
Qed.

Lemma digits_of_N_value n : digits_value (digits_of_N n) = n.
Proof. apply digits_fuel_value, fuel_enough. Qed.

Lemma isDigit_digit n : isDigit (48 + n mod 10) = true.
Proof.
  unfold isDigit. pose proof (N.mod_upper_bound n 10).
  apply andb_true_iff; split; apply N.leb_le; lia.
Qed.

Lemma digits_fuel_all f : forall n,
  forallb isDigit (digits_fuel f n []) = true.
Proof.
  induction f as [ | f IH]; intros n; [reflexivity | ].
  rewrite digits_fuel_step. destruct (n <? 10).
  - cbn [forallb]. now rewrite isDigit_digit.
  - rewrite forallb_app, IH. cbn [forallb]. now rewrite isDigit_digit.
Qed.

Lemma digits_fuel_last f n :
  exists pre, digits_fuel (S f) n [] = pre ++ [48 + n mod 10].
Proof.
  rewrite digits_fuel_step. destruct (n <? 10).
  - now exists [].
  - eexists; reflexivity.
Qed.

Lemma digits_fuel_head f : forall n,
  n <> 0 -> n < 2 ^ N.of_nat f ->
  exists c r, digits_fuel f n [] = c :: r /\ c <> 48 /\ isDigit c = true.
Proof.
  induction f as [ | f IH]; intros n Hn Hlt.
  - cbn in Hlt. lia.
  - rewrite digits_fuel_step. destruct (n <? 10) eqn:E.
    + apply N.ltb_lt in E. exists (48 + n mod 10), []. split; [reflexivity | ].
      rewrite isDigit_digit. rewrite N.mod_small by lia. split; [lia | reflexivity].
    + apply N.ltb_ge in E.
      destruct (IH (n / 10)) as (c & r & Hd & Hc & Hdig).
      * intros H0. apply N.div_small_iff in H0; lia.
      * rewrite Nat2N.inj_succ, N.pow_succ_r' in Hlt.
        apply N.Div0.div_lt_upper_bound. lia.
      * rewrite Hd. exists c, (r ++ [48 + n mod 10]). auto.
Qed.

(** ** Reading digits back *)

Lemma span_digits_app ds rest :
  forallb isDigit ds = true -> no_digit rest = true ->
  span_digits (ds ++ rest) = (ds, rest).
Proof.
  intros Hds Hrest. induction ds as [ | d ds IH]; cbn [app].
  - destruct rest as [ | c rest]; [reflexivity | ].
    cbn in Hrest |- *. apply negb_true_iff in Hrest. now rewrite Hrest.
  - cbn [forallb] in Hds. apply andb_true_iff in Hds as [Hd Hds].
    cbn [span_digits]. now rewrite Hd, (IH Hds).
Qed.

Lemma ends_number_no_digit rest : ends_number rest = true -> no_digit rest = true.
Proof.
  destruct rest as [ | c rest]; [reflexivity | ]. cbn.
  destruct (isDigit c); [discriminate | reflexivity].
Qed.

Lemma parse_frac_end rest : ends_number rest = true -> parse_frac rest = Some ([], rest).
Proof.
  destruct rest as [ | c rest]; [reflexivity | ]. cbn.
  destruct (isDigit c); [discriminate | ].
  destruct (c =? 46); [discriminate | reflexivity].
Qed.

Lemma parse_exp_end rest : ends_number rest = true -> parse_exp rest = Some (0%Z, rest).
Proof.
  destruct rest as [ | c rest]; [reflexivity | ]. cbn.
  destruct (isDigit c); [discriminate | ].
  destruct (c =? 46); [discriminate | ].
  destruct (c =? 101); [discriminate | ].
  destruct (c =? 69); [discriminate | reflexivity].
Qed.

Lemma dropZeros_repeat z s : dropZeros (repeat 48 z ++ s) = dropZeros s.
Proof. induction z as [ | z IH]; [reflexivity | exact IH]. Qed.

Lemma digits_value_zeros z : forall ds,
  digits_value (repeat 48 z ++ ds) = digits_value ds.
Proof. induction z as [ | z IH]; intros ds; [reflexivity | apply IH]. Qed.

Lemma forallb_repeat_zero z : forallb isDigit (repeat 48 z) = true.
Proof. induction z as [ | z IH]; [reflexivity | exact IH]. Qed.

(** The Number of a literal whose digits are zeros, then digits that end
    in a digit other than zero, then [z] zeros. *)
Lemma number_of_parts_digits neg (ids fds : jsstring) E l (pre : jsstring) (dl : codeunit) z :
  ids ++ fds = repeat 48 l ++ (pre ++ [dl]) ++ repeat 48 z ->
  dl <> 48 ->
  digits_value (pre ++ [dl]) <> 0 ->
  number_of_parts neg ids fds E =
  {| mant := if neg then (- Z.of_N (digits_value (pre ++ [dl])))%Z
             else Z.of_N (digits_value (pre ++ [dl]));
     expo := (E - Z.of_nat (length fds) + Z.of_nat z)%Z |}.
Proof.
  intros Hds Hdl Hval. unfold number_of_parts. cbv zeta. rewrite Hds.
  assert (Hkept : rev (dropZeros (rev (repeat 48 l ++ (pre ++ [dl]) ++ repeat 48 z)))
                  = repeat 48 l ++ pre ++ [dl]).
  { rewrite !rev_app_distr, !rev_repeat, <- app_assoc, dropZeros_repeat.
    change (rev [dl]) with [dl]. cbn [app dropZeros].
    apply N.eqb_neq in Hdl. rewrite Hdl.
    change (dl :: rev pre ++ repeat 48 l) with ([dl] ++ rev pre ++ repeat 48 l).
    rewrite !rev_app_distr, rev_involutive, rev_repeat.
    change (rev [dl]) with [dl]. now rewrite <- app_assoc. }
  rewrite Hkept, digits_value_zeros.
  destruct (Z.of_N (digits_value (pre ++ [dl])) =? 0)%Z eqn:E0.
  - apply Z.eqb_eq in E0. lia.
  - f_equal. rewrite !length_app, !repeat_length. cbn [length]. lia.
Qed.

(** ** Numbers *)

Lemma digits_of_N_nonempty a :
  exists pre, digits_of_N a = pre ++ [48 + a mod 10].
Proof.
  unfold digits_of_N. rewrite N2Nat.inj_succ. apply digits_fuel_last.
Qed.

Lemma digits_of_N_all a : forallb isDigit (digits_of_N a) = true.
Proof. apply digits_fuel_all. Qed.

Lemma digits_of_N_head a :
  a <> 0 ->
  exists c r, digits_of_N a = c :: r /\ c <> 48 /\ isDigit c = true.
Proof. intros Ha. apply digits_fuel_head; [exact Ha | apply fuel_enough]. Qed.

Lemma forallb_firstn (f : N -> bool) n : forall l,
  forallb f l = true -> forallb f (firstn n l) = true.
Proof.
  induction n as [ | n IH]; intros [ | x l] H; try reflexivity.
  cbn in H |- *. apply andb_true_iff in H as [Hx Hl].
  now rewrite Hx, (IH _ Hl).
Qed.

Lemma forallb_skipn (f : N -> bool) n : forall l,
  forallb f l = true -> forallb f (skipn n l) = true.
Proof.
  induction n as [ | n IH]; intros [ | x l] H; try reflexivity; [exact H | ].
  cbn in H |- *. apply andb_true_iff in H as [Hx Hl]. now apply IH.
Qed.

Lemma digits_of_N_printed a :
  a <> 0 -> a mod 10 <> 0 -> printed (digits_of_N a) a.
Proof.
  intros Ha Hmod. constructor.
  - now apply digits_of_N_head.
  - destruct (digits_of_N_nonempty a) as [pre Hpre].
    exists pre, (48 + a mod 10). split; [exact Hpre | lia].
  - apply digits_of_N_all.
  - apply digits_of_N_value.
  - exact Ha.
Qed.

Lemma parse_exp_printed E rest :
  ends_number rest = true ->
  parse_exp (exponent_part E ++ rest) = Some (E, rest).
Proof.
  intros Hrest. unfold exponent_part.
  destruct (digits_of_N_nonempty (Z.to_N (Z.abs E))) as [pre Hpre].
  assert (Hspan : span_digits (digits_of_N (Z.to_N (Z.abs E)) ++ rest)
                  = (digits_of_N (Z.to_N (Z.abs E)), rest))
    by (apply span_digits_app;
        [apply digits_of_N_all | now apply ends_number_no_digit]).
  assert (Hne : exists d ds, digits_of_N (Z.to_N (Z.abs E)) = d :: ds)
    by (rewrite Hpre; destruct pre; cbn; eauto).
  destruct Hne as (d & ds & Hd).
  change (js "e") with [101]. change (js "-") with [45].
  change (js "+") with [43].
  destruct (E <? 0)%Z eqn:Hsign; cbn [app parse_exp];
    [ change (101 =? 101) with true; change (45 =? 43) with false;
      change (45 =? 45) with true
    | change (101 =? 101) with true; change (43 =? 43) with true ];
    cbv iota beta; cbn [orb]; cbv iota;
    unfold parse_exp_digits; rewrite Hspan, Hd, <- Hd,
      digits_of_N_value; f_equal; f_equal.
  - apply Z.ltb_lt in Hsign. lia.
  - apply Z.ltb_ge in Hsign. lia.
Qed.

Lemma parse_int_printed c s :
  c <> 48 -> isDigit c = true ->
  parse_int (c :: s) = Some (span_digits (c :: s)).
Proof.
  intros Hc Hd. unfold parse_int. apply N.eqb_neq in Hc. now rewrite Hc, Hd.
Qed.

Lemma parse_frac_point ds rest' :
  forallb isDigit ds = true -> ds <> [] -> no_digit rest' = true ->
  parse_frac (46 :: ds ++ rest') = Some (ds, rest').
Proof.
  intros Hds Hne Hrest. unfold parse_frac. change (46 =? 46) with true. cbv iota.
  rewrite (span_digits_app _ _ Hds Hrest). destruct ds; [contradiction | reflexivity].
Qed.

Lemma parse_frac_none c rest' :
  c <> 46 -> parse_frac (c :: rest') = Some ([], c :: rest').
Proof. intros Hc. unfold parse_frac. apply N.eqb_neq in Hc. now rewrite Hc. Qed.

Lemma span_digits_one c s :
  isDigit c = true -> no_digit s = true -> span_digits (c :: s) = ([c], s).
Proof.
  intros Hc Hs. apply (span_digits_app [c] s); [ | exact Hs].
  cbn. now rewrite Hc.
Qed.

Lemma no_digit_exponent E rest : no_digit (exponent_part E ++ rest) = true.
Proof. reflexivity. Qed.

Lemma parse_frac_exponent E rest :
  parse_frac (exponent_part E ++ rest) = Some ([], exponent_part E ++ rest).
Proof. reflexivity. Qed.

(** Reading a layout back gives the digits and the exponent it was printed
    from. *)
Lemma parse_magnitude_layout neg ds a n rest :
  printed ds a -> ends_number rest = true ->
  parse_magnitude neg (layout ds n ++ rest)
  = Some ({| mant := if neg then (- Z.of_N a)%Z else Z.of_N a;
             expo := (n - Z.of_nat (length ds))%Z |}, rest).
Proof.
  intros [Hhead Hlast Hall Hval Hpos] Hrest.
  destruct Hhead as (c & r & Hcr & Hc48 & Hcd).
  destruct Hlast as (pre & dl & Hpre & Hdl).
  assert (Hnd := ends_number_no_digit _ Hrest).
  assert (Hv : digits_value (pre ++ [dl]) <> 0) by (rewrite <- Hpre; congruence).
  unfold layout, parse_magnitude. cbv zeta.
  destruct ((Z.of_nat (length ds) <=? n) && (n <=? 21))%Z eqn:L1;
    [ | destruct ((0 <? n) && (n <=? 21))%Z eqn:L2;
        [ | destruct ((-6 <? n) && (n <=? 0))%Z eqn:L3 ]].
  - (* an integer padded with zeros *)
    apply andb_true_iff in L1 as [L1 _]. apply Z.leb_le in L1.
    rewrite <- app_assoc. rewrite Hcr at 1. cbn [app].
    rewrite (@parse_int_printed c _ Hc48 Hcd).
    change (c :: r ++ repeat 48 (Z.to_nat (n - Z.of_nat (length ds))) ++ rest)
      with ((c :: r) ++ repeat 48 (Z.to_nat (n - Z.of_nat (length ds))) ++ rest).
    rewrite <- Hcr, app_assoc, span_digits_app;
      [ | now rewrite forallb_app, Hall, forallb_repeat_zero | exact Hnd].
    rewrite (parse_frac_end _ Hrest), (parse_exp_end _ Hrest).
    rewrite (@number_of_parts_digits neg _ [] 0%Z 0 pre dl
               (Z.to_nat (n - Z.of_nat (length ds)))); try assumption.
    + rewrite <- Hpre, Hval. do 3 f_equal. cbn [length]. lia.
    + rewrite app_nil_r, Hpre. reflexivity.
  - (* a point inside the digits *)
    apply andb_true_iff in L2 as [L2 L2']. apply Z.ltb_lt in L2.
    apply Z.leb_le in L2'.
    apply andb_false_iff in L1 as [L1 | L1];
      [apply Z.leb_gt in L1 | apply Z.leb_gt in L1; lia].
    set (i := Z.to_nat n).
    assert (Hi : (0 < i < length ds)%nat) by lia.
    assert (Hfirst : exists r', firstn i ds = c :: r').
    { rewrite Hcr. destruct i as [ | i']; [lia | ]. cbn. eauto. }
    destruct Hfirst as (r' & Hr').
    assert (Hskip : skipn i ds <> []).
    { intros H0. apply (f_equal (@length N)) in H0.
      rewrite length_skipn in H0. cbn in H0. lia. }
    change (js ".") with [46]. rewrite <- app_assoc. cbn [app].
    rewrite Hr'. cbn [app]. rewrite (@parse_int_printed c _ Hc48 Hcd).
    change (c :: r' ++ 46 :: skipn i ds ++ rest)
      with ((c :: r') ++ 46 :: skipn i ds ++ rest).
    rewrite <- Hr', span_digits_app;
      [ | now apply forallb_firstn | reflexivity].
    rewrite parse_frac_point;
      [ | now apply forallb_skipn | exact Hskip | exact Hnd].
    rewrite (parse_exp_end _ Hrest).
    rewrite (@number_of_parts_digits neg _ _ 0%Z 0 pre dl 0); try assumption.
    + rewrite <- Hpre, Hval. do 3 f_equal. rewrite length_skipn. lia.
    + rewrite firstn_skipn, app_nil_r. exact Hpre.
  - (* zeros between the point and the digits *)
    apply andb_true_iff in L3 as [_ L3]. apply Z.leb_le in L3.
    change (js "0.") with [48; 46]. cbn [app].
    unfold parse_int. change (48 =? 48) with true. cbv iota.
    rewrite parse_frac_point;
      [ | now rewrite forallb_app, Hall, forallb_repeat_zero
        | rewrite Hcr; now destruct (Z.to_nat (- n)) | exact Hnd].
    rewrite (parse_exp_end _ Hrest).
    rewrite (@number_of_parts_digits neg _ _ 0%Z (S (Z.to_nat (- n))) pre dl 0);
      try assumption.
    + rewrite <- Hpre, Hval. do 3 f_equal.
      rewrite length_app, repeat_length. lia.
    + cbn [repeat app]. now rewrite app_nil_r, Hpre.
  - (* the scientific layouts *)
    rewrite Hcr. destruct r as [ | d2 r2].
    + cbn [app]. rewrite (@parse_int_printed c _ Hc48 Hcd).
      rewrite (@span_digits_one c _ Hcd (no_digit_exponent _ _)).
      rewrite parse_frac_exponent, (parse_exp_printed _ _ Hrest).
      rewrite (@number_of_parts_digits neg _ _ (n - 1)%Z 0 pre dl 0);
        try assumption.
      * rewrite <- Hpre, Hval. do 3 f_equal. cbn [length]. lia.
      * cbn [repeat app]. now rewrite app_nil_r, <- Hpre, Hcr.
    + change (js ".") with [46]. cbn [app]. rewrite <- app_assoc.
      rewrite (@parse_int_printed c _ Hc48 Hcd).
      rewrite (@span_digits_one c _ Hcd) by reflexivity.
      assert (Hall2 : forallb isDigit (d2 :: r2) = true).
      { rewrite Hcr in Hall. cbn [forallb] in Hall.
        now apply andb_true_iff in Hall as [_ Hall]. }
      change (46 :: d2 :: r2 ++ exponent_part (n - 1) ++ rest)
        with (46 :: (d2 :: r2) ++ (exponent_part (n - 1) ++ rest)).
      rewrite parse_frac_point;
        [ | exact Hall2 | discriminate | apply no_digit_exponent].
      rewrite (parse_exp_printed _ _ Hrest).
      rewrite (@number_of_parts_digits neg _ _ (n - 1)%Z 0 pre dl 0);
        try assumption.
      * rewrite <- Hpre, Hval. do 3 f_equal. cbn [length]. lia.
      * cbn [repeat app]. now rewrite app_nil_r, <- Hpre, Hcr.
Qed.

Lemma layout_head ds a n :
  printed ds a ->
  exists c s, layout ds n = c :: s /\ isDigit c = true.
Proof.
  intros [Hhead _ _ _ _]. destruct Hhead as (c & r & Hcr & _ & Hcd).
  unfold layout. cbv zeta.
  destruct ((Z.of_nat (length ds) <=? n) && (n <=? 21))%Z;
    [ | destruct ((0 <? n) && (n <=? 21))%Z eqn:L2;
        [ | destruct ((-6 <? n) && (n <=? 0))%Z ]].
  - rewrite Hcr. cbn [app]. eauto.
  - apply andb_true_iff in L2 as [L2 _]. apply Z.ltb_lt in L2.
    rewrite Hcr. destruct (Z.to_nat n) as [ | i] eqn:Hi; [lia | ].
    cbn [firstn app]. eauto.
  - change (js "0.") with [48; 46]. cbn [app]. eauto.
  - rewrite Hcr. destruct r; eauto.
Qed.

Lemma isDigit_not_minus c : isDigit c = true -> (c =? 45) = false.
Proof.
  unfold isDigit. intros H. apply andb_true_iff in H as [H _].
  apply N.leb_le in H. apply N.eqb_neq. lia.
Qed.

(** Reading back what [Number::toString] prints gives the Number. *)
Lemma parse_number_toString x rest :
  canonical x = true -> ends_number rest = true ->
  parse_number (Number_toString x ++ rest) = Some (x, rest).
Proof.
  destruct x as [m e]. unfold canonical, Number_toString. cbn [mant expo].
  intros Hcan Hrest. destruct (m =? 0)%Z eqn:Hm.
  - apply Z.eqb_eq in Hm. apply Z.eqb_eq in Hcan. subst m e.
    change (js "0") with [48]. cbn [app]. unfold parse_number.
    change (48 =? 45) with false. cbv iota. unfold parse_magnitude, parse_int.
    change (48 =? 48) with true. cbv iota.
    now rewrite (parse_frac_end _ Hrest), (parse_exp_end _ Hrest).
  - apply Z.eqb_neq in Hm. apply negb_true_iff, Z.eqb_neq in Hcan.
    cbv zeta. set (a := Z.to_N (Z.abs m)).
    assert (Hp : printed (digits_of_N a) a)
      by (apply digits_of_N_printed; subst a; lia).
    destruct (m <? 0)%Z eqn:Hneg.
    + apply Z.ltb_lt in Hneg. change (js "-") with [45]. cbn [app].
      unfold parse_number. change (45 =? 45) with true. cbv iota.
      rewrite (@parse_magnitude_layout true _ _ _ _ Hp Hrest).
      do 3 f_equal; subst a; lia.
    + apply Z.ltb_ge in Hneg. cbn [app].
      destruct (@layout_head _ _ (e + Z.of_nat (length (digits_of_N a))) Hp)
        as (c & s & Hl & Hc).
      rewrite Hl. cbn [app]. unfold parse_number.
      rewrite (@isDigit_not_minus c Hc).
      change (c :: s ++ rest) with ((c :: s) ++ rest). rewrite <- Hl.
      rewrite (@parse_magnitude_layout false _ _ _ _ Hp Hrest).
      do 3 f_equal; subst a; lia.
Qed.

(** ** Strings *)

Lemma hexval_hexdigit n : n < 16 -> hexval (hexdigit n) = Some n.
Proof.
  intros Hn. unfold hexdigit, hexval, isDigit.
  destruct (n <? 10) eqn:E.
  - apply N.ltb_lt in E.
    replace ((48 <=? 48 + n) && (48 + n <=? 57)) with true
      by (symmetry; apply andb_true_iff; split; apply N.leb_le; lia).
    f_equal. lia.
  - apply N.ltb_ge in E.
    replace ((48 <=? 87 + n) && (87 + n <=? 57)) with false
      by (symmetry; apply andb_false_iff; right; apply N.leb_gt; lia).
    replace ((97 <=? 87 + n) && (87 + n <=? 102)) with true
      by (symmetry; apply andb_true_iff; split; apply N.leb_le; lia).
    f_equal. lia.
Qed.

Lemma parse_chars_escape c s :
  c < 65536 -> parse_chars (unicode_escape c ++ s) = push c (parse_chars s).
Proof.
  intros Hc. unfold unicode_escape. cbn [app parse_chars].
  change (92 =? 34) with false. change (92 =? 92) with true.
  change (117 =? 117) with true. cbv iota. unfold hex4.
  rewrite !hexval_hexdigit by (apply N.mod_upper_bound; discriminate).
  do 2 f_equal. lia.
Qed.

Lemma parse_chars_plain c s :
  (c =? 34) = false -> (c =? 92) = false -> (c <? 32) = false ->
  parse_chars (c :: s) = push c (parse_chars s).
Proof. intros H1 H2 H3. cbn [parse_chars]. now rewrite H1, H2, H3. Qed.

Lemma surrogate_is_plain c :
  55296 <= c -> (c =? 34) = false /\ (c =? 92) = false /\ (c <? 32) = false.
Proof.
  intros H. repeat split; [apply N.eqb_neq | apply N.eqb_neq | apply N.ltb_ge]; lia.
Qed.

(** Reading back the characters [QuoteJSONString] writes gives the
    string. *)
Lemma parse_chars_quote_chars n : forall s rest,
  (length s <= n)%nat ->
  parse_chars (quote_chars s ++ 34 :: rest) = Some (s, rest).
Proof.
  induction n as [ | n IH]; intros [ | c s1] rest Hlen;
    try reflexivity; [cbn in Hlen; lia | ].
  cbn [length] in Hlen.
  assert (IH1 : parse_chars (quote_chars s1 ++ 34 :: rest) = Some (s1, rest))
    by (apply IH; lia).
  cbn [quote_chars].
  change (js "\b") with [92; 98]. change (js "\t") with [92; 116].
  change (js "\n") with [92; 110]. change (js "\f") with [92; 102].
  change (js "\r") with [92; 114]. change (js "\\") with [92; 92].
  destruct (c =? 8) eqn:E8;
    [apply N.eqb_eq in E8; subst c; cbn; now rewrite IH1 | ].
  destruct (c =? 9) eqn:E9;
    [apply N.eqb_eq in E9; subst c; cbn; now rewrite IH1 | ].
  destruct (c =? 10) eqn:E10;
    [apply N.eqb_eq in E10; subst c; cbn; now rewrite IH1 | ].
  destruct (c =? 12) eqn:E12;
    [apply N.eqb_eq in E12; subst c; cbn; now rewrite IH1 | ].
  destruct (c =? 13) eqn:E13;
    [apply N.eqb_eq in E13; subst c; cbn; now rewrite IH1 | ].
  destruct (c =? 34) eqn:E34;
    [apply N.eqb_eq in E34; subst c; cbn; now rewrite IH1 | ].
  destruct (c =? 92) eqn:E92;
    [apply N.eqb_eq in E92; subst c; cbn; now rewrite IH1 | ].
  destruct (c <? 32) eqn:E32.
  { apply N.ltb_lt in E32. rewrite <- app_assoc, parse_chars_escape by lia.
    now rewrite IH1. }
  destruct (isHighSurrogate c) eqn:Ehigh.
  { unfold isHighSurrogate in Ehigh. apply andb_true_iff in Ehigh as [Hlo Hhi].
    apply N.leb_le in Hlo. apply N.leb_le in Hhi.
    destruct s1 as [ | d s2].
    - rewrite parse_chars_escape by lia. reflexivity.
    - destruct (isLowSurrogate d) eqn:Elow.
      + unfold isLowSurrogate in Elow. apply andb_true_iff in Elow as [Hd _].
        apply N.leb_le in Hd. cbn [app].
        destruct (@surrogate_is_plain c ltac:(lia)) as (A1 & A2 & A3).
        destruct (@surrogate_is_plain d ltac:(lia)) as (B1 & B2 & B3).
        rewrite (@parse_chars_plain c _ A1 A2 A3), (@parse_chars_plain d _ B1 B2 B3).
        cbn [length] in Hlen. rewrite IH by lia. reflexivity.
      + rewrite <- app_assoc, parse_chars_escape by lia. now rewrite IH1. }
  destruct (isLowSurrogate c) eqn:Elow.
  { unfold isLowSurrogate in Elow. apply andb_true_iff in Elow as [_ Hhi].
    apply N.leb_le in Hhi.
    rewrite <- app_assoc, parse_chars_escape by lia. now rewrite IH1. }
  cbn [app]. rewrite (@parse_chars_plain c _ E34 E92 E32). now rewrite IH1.
Qed.

(** ** Values *)

Lemma Number_toString_head x :
  canonical x = true ->
  exists c s, Number_toString x = c :: s /\ (isDigit c = true \/ c = 45).
Proof.
  destruct x as [m e]. unfold canonical, Number_toString. cbn [mant expo].
  intros Hcan. destruct (m =? 0)%Z eqn:Hm.
  - exists 48, []. split; [reflexivity | now left].
  - apply Z.eqb_neq in Hm. apply negb_true_iff, Z.eqb_neq in Hcan. cbv zeta.
    destruct (m <? 0)%Z.
    + change (js "-") with [45]. cbn [app]. eauto.
    + set (a := Z.to_N (Z.abs m)).
      assert (Hp : printed (digits_of_N a) a)
        by (apply digits_of_N_printed; subst a; lia).
      destruct (@layout_head _ _ (e + Z.of_nat (length (digits_of_N a))) Hp)
        as (c & s & Hl & Hc).
      rewrite Hl. cbn [app]. eauto.
Qed.

Lemma digit_or_minus c :
  isDigit c = true \/ c = 45 ->
  c = 45 \/ c = 48 \/ c = 49 \/ c = 50 \/ c = 51 \/ c = 52 \/ c = 53 \/
  c = 54 \/ c = 55 \/ c = 56 \/ c = 57.
Proof.
  intros [H | H]; [ | now left]. unfold isDigit in H.
  apply andb_true_iff in H as [H1 H2].
  apply N.leb_le in H1. apply N.leb_le in H2. lia.
Qed.

(** A text that starts like a number is read as a number. *)
Lemma parse_value_number f c s :
  isDigit c = true \/ c = 45 ->
  parse_value (S f) (c :: s)
  = match parse_number (c :: s) with
    | Some (n, r') => Some (JNumber n, r')
    | None => None
    end.
Proof.
  intros H. apply digit_or_minus in H.
  repeat (destruct H as [-> | H]; [reflexivity | ]). subst c. reflexivity.
Qed.

Lemma object_start f s :
  parse_value (S f) (123 :: 34 :: s) = parse_members f [] (34 :: s).
Proof. reflexivity. Qed.

Lemma string_value f s :
  parse_value (S f) (34 :: s)
  = match parse_chars s with
    | Some (str, r') => Some (JString str, r')
    | None => None
    end.
Proof. reflexivity. Qed.

Lemma member_more f acc k v sv r4 :
  parse_value f sv = Some (v, 44 :: r4) ->
  parse_members (S f) acc (34 :: quote_chars k ++ 34 :: 58 :: sv)
  = parse_members f (obj_set k v acc) r4.
Proof.
  intros Hv. cbn [parse_members].
  change (skip_ws (34 :: quote_chars k ++ 34 :: 58 :: sv))
    with (34 :: quote_chars k ++ 34 :: 58 :: sv).
  cbv iota. rewrite (parse_chars_quote_chars (length k) k (58 :: sv) (le_n _)).
  change (skip_ws (58 :: sv)) with (58 :: sv). cbv iota. rewrite Hv.
  reflexivity.
Qed.

Lemma member_last f acc k v sv r4 :
  parse_value f sv = Some (v, 125 :: r4) ->
  parse_members (S f) acc (34 :: quote_chars k ++ 34 :: 58 :: sv)
  = Some (JObject (obj_set k v acc), r4).
Proof.
  intros Hv. cbn [parse_members].
  change (skip_ws (34 :: quote_chars k ++ 34 :: 58 :: sv))
    with (34 :: quote_chars k ++ 34 :: 58 :: sv).
  cbv iota. rewrite (parse_chars_quote_chars (length k) k (58 :: sv) (le_n _)).
  change (skip_ws (58 :: sv)) with (58 :: sv). cbv iota. rewrite Hv.
  reflexivity.
Qed.

Lemma JSON_stringify_object2 k1 v1 k2 v2 :
  JSON_stringify (JObject [(k1, v1); (k2, v2)])
  = [123]
    ++ (((34 :: quote_chars k1 ++ [34]) ++ [58] ++ JSON_stringify v1)
        ++ [44]
        ++ ((34 :: quote_chars k2 ++ [34]) ++ [58] ++ JSON_stringify v2))
    ++ [125].
Proof. reflexivity. Qed.

Lemma JSON_stringify_detection d rest :
  JSON_stringify (json_of_detection d) ++ rest
  = 123 :: 34 :: quote_chars (js "label") ++ 34 :: 58
    :: 34 :: quote_chars (label d) ++ 34 :: 44
    :: 34 :: quote_chars (js "confidence") ++ 34 :: 58
    :: Number_toString (confidence d) ++ 125 :: rest.
Proof.
  unfold json_of_detection. rewrite JSON_stringify_object2.
  cbn [JSON_stringify]. unfold QuoteJSONString.
  repeat (rewrite <- ?app_assoc, <- ?app_comm_cons; cbn [app]).
  reflexivity.
Qed.

(** Reading back a printed Detection, whatever follows it. *)
Lemma parse_value_detection f d rest :
  canonical (confidence d) = true ->
  parse_value (4 + f) (JSON_stringify (json_of_detection d) ++ rest)
  = Some (json_of_detection d, rest).
Proof.
  intros Hcan. rewrite JSON_stringify_detection. cbn [Nat.add].
  rewrite object_start.
  erewrite member_more.
  2:{ rewrite string_value.
      rewrite (parse_chars_quote_chars (length (label d)) _ _ (le_n _)).
      reflexivity. }
  erewrite member_last.
  2:{ destruct (Number_toString_head (confidence d) Hcan) as (c & s & Hs & Hc).
      rewrite Hs. cbn [app]. rewrite (parse_value_number f c _ Hc).
      change (c :: s ++ 125 :: rest) with ((c :: s) ++ 125 :: rest).
      rewrite <- Hs, (parse_number_toString _ (125 :: rest) Hcan);
        reflexivity. }
  reflexivity.
Qed.

(** ** Lists of detections *)

Lemma array_start f s :
  parse_value (S f) (91 :: 123 :: s) = parse_elements f [] (123 :: s).
Proof. reflexivity. Qed.

Lemma elements_more f acc sv v r' :
  parse_value f sv = Some (v, 44 :: r') ->
  parse_elements (S f) acc sv = parse_elements f (v :: acc) r'.
Proof. intros Hv. cbn [parse_elements]. now rewrite Hv. Qed.

Lemma elements_last f acc sv v r' :
  parse_value f sv = Some (v, 93 :: r') ->
  parse_elements (S f) acc sv = Some (JArray (rev (v :: acc)), r').
Proof. intros Hv. cbn [parse_elements]. now rewrite Hv. Qed.

Lemma printed_detection_head d :
  exists s, printed_detection d = 123 :: s.
Proof.
  unfold printed_detection.
  rewrite <- (app_nil_r (JSON_stringify _)), JSON_stringify_detection.
  eexists; reflexivity.
Qed.

Lemma JSON_stringify_detections ds :
  JSON_stringify (json_of_detections ds)
  = 91 :: join [44] (map printed_detection ds) ++ [93].
Proof.
  unfold json_of_detections. cbn [JSON_stringify]. rewrite map_map. reflexivity.
Qed.

Lemma length_join ds :
  (length ds <= length (join [44%N] (map printed_detection ds)))%nat.
Proof.
  induction ds as [ | d ds IH]; [apply le_n | ].
  destruct (printed_detection_head d) as [s Hs].
  destruct ds as [ | d' ds].
  - cbn [map join length]. rewrite Hs. cbn [length]. lia.
  - change (join [44] (map printed_detection (d :: d' :: ds)))
      with (printed_detection d ++ [44]
            ++ join [44] (map printed_detection (d' :: ds))).
    rewrite !length_app, Hs. cbn [length] in IH |- *. lia.
Qed.

(** Reading back the elements of a printed list, up to the bracket that
    closes it. *)
Lemma parse_elements_detections ds : forall d acc f rest,
  forallb well_formed (d :: ds) = true ->
  parse_elements (5 + length ds + f) acc
    (join [44] (map printed_detection (d :: ds)) ++ 93 :: rest)
  = Some (JArray (rev acc ++ map json_of_detection (d :: ds)), rest).
Proof.
  induction ds as [ | d' ds IH]; intros d acc f rest Hwf;
    cbn [forallb] in Hwf; apply andb_true_iff in Hwf as [Hd Hwf];
    unfold well_formed in Hd; apply andb_true_iff in Hd as [Hcan _].
  - cbn [map join length Nat.add].
    erewrite elements_last;
      [ | apply (parse_value_detection f d (93 :: rest) Hcan)].
    reflexivity.
  - change (join [44] (map printed_detection (d :: d' :: ds)))
      with (printed_detection d ++ [44]
            ++ join [44] (map printed_detection (d' :: ds))).
    rewrite <- !app_assoc. cbn [length Nat.add app].
    erewrite elements_more;
      [ | apply (parse_value_detection (S (length ds + f)) d _ Hcan)].
    etransitivity;
      [apply (IH d' (json_of_detection d :: acc) f rest Hwf) | ].
    cbn [rev map]. now rewrite <- app_assoc.
Qed.

Lemma parse_json_detections ds :
  forallb well_formed ds = true ->
  parse_json (JSON_stringify (json_of_detections ds))
  = Some (json_of_detections ds).
Proof.
  intros Hwf. destruct ds as [ | d ds]; [reflexivity | ].
  unfold parse_json. rewrite JSON_stringify_detections.
  pose proof (length_join (d :: ds)) as Hlen. cbn [length] in Hlen |- *.
  rewrite length_app. cbn [length].
  set (j := join [44] (map printed_detection (d :: ds))) in *.
  replace (2 * S (length j + 1) + 2)%nat
    with (S (5 + length ds + (2 * length j - length ds)))%nat by lia.
  destruct (printed_detection_head d) as [s Hs].
  assert (Hj : exists s', j = 123 :: s').
  { subst j. destruct ds as [ | d' ds'].
    - cbn [map join]. eauto.
    - change (join [44] (map printed_detection (d :: d' :: ds')))
        with (printed_detection d ++ [44]
              ++ join [44] (map printed_detection (d' :: ds'))).
      rewrite Hs. cbn [app]. eauto. }
  destruct Hj as [s' Hs']. rewrite Hs'. cbn [app]. rewrite array_start.
  change (123 :: s' ++ [93]) with ((123 :: s') ++ [93]). rewrite <- Hs'.
  subst j. rewrite (parse_elements_detections ds d [] _ [] Hwf).
  reflexivity.
Qed.

(** C9: serialising a list of well-formed Detections and extracting gives
    the list back. *)
Theorem extract_serialize_round_trip :
  forall x : list Detection,
    forallb well_formed x = true ->
    extractJsonFromResponse (JSON_stringify (json_of_detections x))
    = Normal (Val (json_of_detections x)).
Proof.
  intros x Hwf. unfold extractJsonFromResponse, parsed, JSON_parse.
  now rewrite (parse_json_detections x Hwf).
Qed.

Lemma extract_serialize_round_trip_witness :
  extractJsonFromResponse
    (JSON_stringify (json_of_detections Samples.cat_and_dog))
  = Normal (Val (json_of_detections Samples.cat_and_dog)).
Proof.
  apply (extract_serialize_round_trip Samples.cat_and_dog). reflexivity.
Defined.

(* ================================================================== *)
(** * The fuel of the JSON parser *)
(* ================================================================== *)

Local Open Scope nat_scope.

Lemma skip_ws_length s : length (skip_ws s) <= length s.
Proof.
  induction s as [ | c s IH]; [apply le_n | ].
  cbn [skip_ws]. destruct (isJsonWs c); cbn [length]; lia.
Qed.

Lemma skip_ws_cons s c r : skip_ws s = c :: r -> length r < length s.
Proof.
  intros H. pose proof (skip_ws_length s) as Hl. rewrite H in Hl.
  cbn [length] in Hl. lia.
Qed.

Lemma push_length c p str r :
  push c p = Some (str, r) -> exists str', p = Some (str', r).
Proof.
  destruct p as [[str' r'] | ]; cbn; [ | discriminate].
  intros H. inversion H. eauto.
Qed.

Lemma parse_chars_length s : forall str r,
  parse_chars s = Some (str, r) -> length r < length s.
Proof.
  induction s as [s IH] using (well_founded_induction
                                 (Wf_nat.well_founded_ltof _ (@length N))).
  unfold Wf_nat.ltof in IH.
  intros str r H. destruct s as [ | c s1]; [discriminate | ].
  cbn [parse_chars] in H.
  destruct (c =? 34)%N.
  { inversion H; subst. cbn [length]. lia. }
  destruct (c =? 92)%N.
  - destruct s1 as [ | e s2]; [discriminate | ].
    destruct (e =? 117)%N.
    + destruct s2 as [ | h1 [ | h2 [ | h3 [ | h4 s3]]]]; try discriminate.
      destruct (hex4 h1 h2 h3 h4); [ | discriminate].
      apply push_length in H as [str' H].
      apply IH in H; cbn [length] in *; lia.
    + destruct (unescape e); [ | discriminate].
      apply push_length in H as [str' H].
      apply IH in H; cbn [length] in *; lia.
  - destruct (c <? 32)%N; [discriminate | ].
    apply push_length in H as [str' H].
    apply IH in H; cbn [length] in *; lia.
Qed.

Lemma span_digits_length s : forall ds r,
  span_digits s = (ds, r) -> length r <= length s.
Proof.
  induction s as [ | c s IH]; intros ds r H; cbn [span_digits] in H.
  - inversion H. apply le_n.
  - destruct (isDigit c).
    + destruct (span_digits s) as [ds' r'] eqn:E. inversion H; subst.
      specialize (IH _ _ eq_refl). cbn [length]. lia.
    + inversion H. apply le_n.
Qed.

Lemma parse_int_length s ids r :
  parse_int s = Some (ids, r) -> length r < length s.
Proof.
  unfold parse_int. destruct s as [ | c s1]; [discriminate | ].
  destruct (c =? 48)%N.
  - intros H. inversion H; subst. cbn [length]. lia.
  - destruct (isDigit c) eqn:Hc; [ | discriminate].
    cbn [span_digits]. rewrite Hc.
    destruct (span_digits s1) as [ds' r'] eqn:E. intros H. inversion H; subst.
    apply span_digits_length in E. cbn [length]. lia.
Qed.

Lemma parse_frac_length s fds r :
  parse_frac s = Some (fds, r) -> length r <= length s.
Proof.
  unfold parse_frac. destruct s as [ | c s1]; [intros H; inversion H; apply le_n | ].
  destruct (c =? 46)%N.
  - destruct (span_digits s1) as [ds' r'] eqn:E.
    apply span_digits_length in E.
    destruct ds'; [discriminate | ]. intros H. inversion H; subst.
    cbn [length]. lia.
  - intros H. inversion H. apply le_n.
Qed.

Lemma parse_exp_digits_length neg s e r :
  parse_exp_digits neg s = Some (e, r) -> length r <= length s.
Proof.
  unfold parse_exp_digits. destruct (span_digits s) as [ds' r'] eqn:E.
  apply span_digits_length in E. destruct ds'; [discriminate | ].
  intros H. inversion H; subst. exact E.
Qed.

Lemma parse_exp_length s e r :
  parse_exp s = Some (e, r) -> length r <= length s.
Proof.
  unfold parse_exp. destruct s as [ | c s1]; [intros H; inversion H; apply le_n | ].
  destruct ((c =? 101) || (c =? 69))%N.
  - destruct s1 as [ | sign s2]; [discriminate | ].
    destruct (sign =? 43)%N;
      [ | destruct (sign =? 45)%N];
      intros H; apply parse_exp_digits_length in H; cbn [length] in *; lia.
  - intros H. inversion H. apply le_n.
Qed.

Lemma parse_magnitude_length neg s n r :
  parse_magnitude neg s = Some (n, r) -> length r < length s.
Proof.
  unfold parse_magnitude.
  destruct (parse_int s) as [[ids s2] | ] eqn:E1; [ | discriminate].
  destruct (parse_frac s2) as [[fds s3] | ] eqn:E2; [ | discriminate].
  destruct (parse_exp s3) as [[e s4] | ] eqn:E3; [ | discriminate].
  intros H. inversion H; subst.
  apply parse_int_length in E1. apply parse_frac_length in E2.
  apply parse_exp_length in E3. lia.
Qed.

Lemma parse_number_length s n r :
  parse_number s = Some (n, r) -> length r < length s.
Proof.
  unfold parse_number. destruct s as [ | c s1]; [discriminate | ].
  destruct (c =? 45)%N; intros H; apply parse_magnitude_length in H;
    cbn [length] in *; lia.
Qed.

Lemma skipn_succ_length (n : nat) (c : N) (r : list N) :
  length (skipn (S n) (c :: r)) < length (c :: r).
Proof. rewrite length_skipn. cbn [length]. lia. Qed.

(** What a parse at some fuel returns, any fuel from twice the number of
    code units read (and one more, inside an array or an object)
    returns. *)
Lemma fuel_bound f :
  (forall s v r,
      parse_value f s = Some (v, r) ->
      length r < length s /\
      forall g, 2 * (length s - length r) <= g ->
                parse_value g s = Some (v, r)) /\
  (forall acc s v r,
      parse_elements f acc s = Some (v, r) ->
      length r < length s /\
      forall g, 2 * (length s - length r) + 1 <= g ->
                parse_elements g acc s = Some (v, r)) /\
  (forall acc s v r,
      parse_members f acc s = Some (v, r) ->
      length r < length s /\
      forall g, 2 * (length s - length r) + 1 <= g ->
                parse_members g acc s = Some (v, r)).
Proof.
  induction f as [ | f (IHv & IHe & IHm)];
    [repeat split; intros; discriminate | ].
  split; [ | split].
  - (* parse_value *)
    intros s v r H. cbn [parse_value] in H.
    destruct (skip_ws s) as [ | c r0] eqn:Hs; [discriminate | ].
    pose proof (skip_ws_cons _ _ _ Hs) as Hc.
    assert (Hleaf : forall res : option (json * list N),
               (forall g', parse_value (S g') s = res) ->
               res = Some (v, r) -> length r < length (c :: r0) ->
               length r < length s /\
               forall g, 2 * (length s - length r) <= g ->
                         parse_value g s = Some (v, r)).
    { intros res Hres -> Hlen. cbn [length] in Hlen.
      split; [lia | ]. intros [ | g'] Hg; [lia | apply Hres]. }
    destruct (c =? 123)%N eqn:E123.
    { destruct (skip_ws r0) as [ | c' r'] eqn:Hs0; [discriminate | ].
      pose proof (skip_ws_cons _ _ _ Hs0) as Hc0.
      destruct (c' =? 125)%N eqn:E125.
      - inversion H; subst. split; [lia | ].
        intros [ | g'] Hg; [lia | ]. cbn [parse_value].
        now rewrite Hs, E123, Hs0, E125.
      - apply IHm in H as [Hlen Hg0]. split; [lia | ].
        intros [ | g'] Hg; [lia | ]. cbn [parse_value].
        rewrite Hs, E123, Hs0, E125. apply Hg0. lia. }
    destruct (c =? 91)%N eqn:E91.
    { destruct (skip_ws r0) as [ | c' r'] eqn:Hs0; [discriminate | ].
      pose proof (skip_ws_cons _ _ _ Hs0) as Hc0.
      destruct (c' =? 93)%N eqn:E93.
      - inversion H; subst. split; [lia | ].
        intros [ | g'] Hg; [lia | ]. cbn [parse_value].
        now rewrite Hs, E123, E91, Hs0, E93.
      - apply IHe in H as [Hlen Hg0]. split; [lia | ].
        intros [ | g'] Hg; [lia | ]. cbn [parse_value].
        rewrite Hs, E123, E91, Hs0, E93. apply Hg0. lia. }
    destruct (c =? 34)%N eqn:E34.
    { destruct (parse_chars r0) as [[str r'] | ] eqn:Hstr; [ | discriminate].
      apply parse_chars_length in Hstr as Hl.
      eapply Hleaf; [ | exact H | ];
        [ intros g'; cbn [parse_value];
          now rewrite Hs, E123, E91, E34, Hstr
        | replace r with r' by congruence; cbn [length]; lia ]. }
    destruct (startsWith (js "true") (c :: r0)) eqn:Et.
    { eapply Hleaf; [ | exact H | ];
        [ intros g'; cbn [parse_value]; now rewrite Hs, E123, E91, E34, Et
        | replace r with (skipn 4 (c :: r0)) by congruence;
          apply skipn_succ_length ]. }
    destruct (startsWith (js "false") (c :: r0)) eqn:Ef.
    { eapply Hleaf; [ | exact H | ];
        [ intros g'; cbn [parse_value];
          now rewrite Hs, E123, E91, E34, Et, Ef
        | replace r with (skipn 5 (c :: r0)) by congruence;
          apply skipn_succ_length ]. }
    destruct (startsWith (js "null") (c :: r0)) eqn:En.
    { eapply Hleaf; [ | exact H | ];
        [ intros g'; cbn [parse_value];
          now rewrite Hs, E123, E91, E34, Et, Ef, En
        | replace r with (skipn 4 (c :: r0)) by congruence;
          apply skipn_succ_length ]. }
    destruct (parse_number (c :: r0)) as [[n r'] | ] eqn:Hn; [ | discriminate].
    apply parse_number_length in Hn as Hl.
    eapply Hleaf; [ | exact H | ];
      [ intros g'; cbn [parse_value];
        now rewrite Hs, E123, E91, E34, Et, Ef, En, Hn
      | replace r with r' by congruence; exact Hl ].
  - (* parse_elements *)
    intros acc s v r H. cbn [parse_elements] in H.
    destruct (parse_value f s) as [[v1 r1] | ] eqn:Hv; [ | discriminate].
    apply IHv in Hv as [Hl1 Hg1].
    destruct (skip_ws r1) as [ | c r2] eqn:Hs1; [discriminate | ].
    pose proof (skip_ws_cons _ _ _ Hs1) as Hc1.
    destruct (c =? 44)%N eqn:E44.
    + apply IHe in H as [Hl2 Hg2]. split; [lia | ].
      intros [ | g'] Hg; [lia | ]. cbn [parse_elements].
      rewrite Hg1 by lia. rewrite Hs1, E44. apply Hg2. lia.
    + destruct (c =? 93)%N eqn:E93; [ | discriminate].
      inversion H; subst. split; [lia | ].
      intros [ | g'] Hg; [lia | ]. cbn [parse_elements].
      rewrite Hg1 by lia. now rewrite Hs1, E44, E93.
  - (* parse_members *)
    intros acc s v r H. cbn [parse_members] in H.
    destruct (skip_ws s) as [ | q r0] eqn:Hs; [discriminate | ].
    pose proof (skip_ws_cons _ _ _ Hs) as Hc.
    destruct (q =? 34)%N eqn:E34; [ | discriminate].
    destruct (parse_chars r0) as [[k r1] | ] eqn:Hk; [ | discriminate].
    apply parse_chars_length in Hk as Hlk.
    destruct (skip_ws r1) as [ | c r2] eqn:Hs1; [discriminate | ].
    pose proof (skip_ws_cons _ _ _ Hs1) as Hc1.
    destruct (c =? 58)%N eqn:E58; [ | discriminate].
    destruct (parse_value f r2) as [[v1 r3] | ] eqn:Hv; [ | discriminate].
    apply IHv in Hv as [Hl1 Hg1].
    destruct (skip_ws r3) as [ | c' r4] eqn:Hs3; [discriminate | ].
    pose proof (skip_ws_cons _ _ _ Hs3) as Hc3.
    destruct (c' =? 44)%N eqn:E44.
    + apply IHm in H as [Hl2 Hg2]. split; [lia | ].
      intros [ | g'] Hg; [lia | ]. cbn [parse_members].
      rewrite Hs, E34, Hk, Hs1, E58. rewrite Hg1 by lia.
      rewrite Hs3, E44. apply Hg2. lia.
    + destruct (c' =? 125)%N eqn:E125; [ | discriminate].
      inversion H; subst. split; [lia | ].
      intros [ | g'] Hg; [lia | ]. cbn [parse_members].
      rewrite Hs, E34, Hk, Hs1, E58. rewrite Hg1 by lia.
      now rewrite Hs3, E44, E125.
Qed.

(** The fuel [JSON_parse] gives is never used up: more fuel changes
    nothing. *)
Lemma parse_value_fuel s f :
  2 * length s + 2 <= f ->
  parse_value f s = parse_value (2 * length s + 2) s.
Proof.
  intros Hf.
  destruct (parse_value f s) as [[v r] | ] eqn:Hbig.
  - destruct (fuel_bound f) as (Hv & _ & _).
    destruct (Hv _ _ _ Hbig) as [Hl Hg]. symmetry. apply Hg. lia.
  - destruct (parse_value (2 * length s + 2) s) as [[v r] | ] eqn:Hsmall;
      [ | reflexivity].
    destruct (fuel_bound (2 * length s + 2)) as (Hv & _ & _).
    destruct (Hv _ _ _ Hsmall) as [Hl Hg].
    rewrite Hg in Hbig by lia. discriminate.
Qed.

(* ================================================================== *)
(** * The handlers, branch by branch *)
(* ================================================================== *)

(** ** [POST /analyze] *)

(** On success the file is read once, the provider is asked once with the
    question of the request under the timeout, the answer is sent as it
    is with HTTP 200, and the file is unlinked; it is gone afterwards
    unless the file system refuses the unlink. *)
Theorem analyze_success :
  forall env req f fs b content,
    file req = Some f ->
    existsb (eqs (path f)) fs = true ->
    read_base64 env (path f) = Normal b ->
    truthy (OPENAI_API_KEY env) = true ->
    infer env (Analyze.asked req) b = Normal content ->
    Analyze.analyze env req (initial fs)
    = (Normal tt,
       {| files := match unlink_file env (path f) with
                   | Normal _ => filter (fun q => negb (eqs (path f) q)) fs
                   | Throw _ => fs
                   end;
          trace :=
            [EvReadFile (path f);
             EvInference (Some 30000%Z);
             EvRespond
               {| status_code := 200;
                  body := JObject
                            [(js "status", JString (js "success"));
                             (js "response", JString content);
                             (js "timestamp", JString (now env))] |};
             EvUnlink (path f)];
          filePath := Some (path f) |}).
Proof.
  intros env req f fs b content Hf Hex Hread Hkey Hinfer.
  step_handler. rewrite Hf. step_handler.
  rewrite Hex, Hread. step_handler. rewrite Hkey. cbn [negb]. step_handler.
  rewrite Hinfer. step_handler. rewrite Hex.
  now destruct (unlink_file env (path f)).
Qed.

Lemma analyze_success_witness :
  map status_code
      (responses
         (trace (snd (Analyze.analyze
                        (Samples.env_answering (js "A cat on a windowsill."))
                        Samples.cat_request (initial Samples.scratch)))))
  = [200%Z].
Proof.
  rewrite (analyze_success
             (Samples.env_answering (js "A cat on a windowsill."))
             Samples.cat_request Samples.cat_png Samples.scratch
             (js "iVBORw0KGgo=") (js "A cat on a windowsill.")
             eq_refl eq_refl eq_refl eq_refl eq_refl).
  reflexivity.
Defined.

(** Without a file the answer is HTTP 500 with the message of the handler;
    nothing is read, the provider is not called, nothing is unlinked. *)
Theorem analyze_without_file :
  forall env req fs,
    file req = None ->
    Analyze.analyze env req (initial fs)
    = (Normal tt,
       {| files := fs;
          trace :=
            [EvRespond
               {| status_code := 500;
                  body := Analyze.errorResponse env
                            (js "No image file provided") |}];
          filePath := None |}).
Proof.
  intros env req fs Hf. step_handler. rewrite Hf. step_handler.
  unfold Analyze.upstream_status, Analyze.timed_out, Error.
  cbn [response_status code message].
  change (includes (js "file type") (js "No image file provided")) with false.
  reflexivity.
Qed.

Lemma analyze_without_file_witness :
  trace (snd (Analyze.analyze (Samples.env_answering (js "A cat."))
                {| file := None; question := None |}
                (initial Samples.scratch)))
  = [EvRespond
       {| status_code := 500;
          body := Analyze.errorResponse (Samples.env_answering (js "A cat."))
                    (js "No image file provided") |}].
Proof.
  rewrite (analyze_without_file (Samples.env_answering (js "A cat."))
             {| file := None; question := None |} Samples.scratch eq_refl).
  reflexivity.
Defined.

(** Without a credential the file is read first, then the request is
    answered with HTTP 500; the provider is not called, and the file is
    unlinked. *)
Theorem analyze_without_credential :
  forall env req f fs b,
    file req = Some f ->
    existsb (eqs (path f)) fs = true ->
    read_base64 env (path f) = Normal b ->
    truthy (OPENAI_API_KEY env) = false ->
    trace (snd (Analyze.analyze env req (initial fs)))
    = [EvReadFile (path f);
       EvRespond
         {| status_code := 500;
            body := Analyze.errorResponse env
                      (js "OpenAI API key not configured") |};
       EvUnlink (path f)].
Proof.
  intros env req f fs b Hf Hex Hread Hkey.
  step_handler. rewrite Hf. step_handler.
  rewrite Hex, Hread. step_handler. rewrite Hkey. cbn [negb]. step_handler.
  unfold Analyze.upstream_status, Analyze.timed_out, Error.
  cbn [response_status code message].
  change (includes (js "file type") (js "OpenAI API key not configured"))
    with false.
  step_handler. rewrite Hex. now destruct (unlink_file env (path f)).
Qed.

Lemma analyze_without_credential_witness :
  let env := {| now := js "2024-01-01T00:00:00.000Z";
                OPENAI_API_KEY := None;
                read_base64 := fun _ => Normal (js "iVBORw0KGgo=");
                unlink_file := fun _ => Normal tt;
                infer := fun _ _ => Normal (js "A cat.") |} in
  trace (snd (Analyze.analyze env Samples.cat_request (initial Samples.scratch)))
  = [EvReadFile (path Samples.cat_png);
     EvRespond
       {| status_code := 500;
          body := Analyze.errorResponse env
                    (js "OpenAI API key not configured") |};
     EvUnlink (path Samples.cat_png)].
Proof.
  cbv zeta.
  apply (analyze_without_credential _ Samples.cat_request Samples.cat_png
           Samples.scratch (js "iVBORw0KGgo=")); reflexivity.
Defined.

(** When the file cannot be read (it is gone, or the file system refuses
    it) the provider is not called; the answer carries the message of the
    file system behind [Error encoding image: ], with HTTP 415 when that
    text contains [file type] and HTTP 500 otherwise; the unlink is still
    tried.  The message of the file system for a file that is gone names
    the path, so a stored path that contains [file type] gives HTTP 415. *)
Theorem analyze_unreadable_file :
  forall env req f fs e,
    file req = Some f ->
    (if existsb (eqs (path f)) fs then read_base64 env (path f)
     else Throw (ENOENT (js "open") (path f))) = Throw e ->
    trace (snd (Analyze.analyze env req (initial fs)))
    = [EvReadFile (path f);
       EvRespond
         {| status_code :=
              if includes (js "file type")
                   (js "Error encoding image: " ++ message e)
              then 415 else 500;
            body := Analyze.errorResponse env
                      (js "Error encoding image: " ++ message e) |};
       EvUnlink (path f)].
Proof.
  intros env req f fs e Hf Hread.
  step_handler. rewrite Hf. step_handler.
  destruct (existsb (eqs (path f)) fs) eqn:Hex;
    [rewrite Hread | injection Hread as He; rewrite He]; step_handler;
    unfold Analyze.upstream_status, Analyze.timed_out, Error;
    cbn [response_status code message Analyze.message_or_default];
    destruct (includes (js "file type")
                (js "Error encoding image: " ++ message e));
    step_handler; rewrite ?Hex;
    try (now destruct (unlink_file env (path f))); reflexivity.
Qed.

Lemma analyze_unreadable_file_witness :
  trace (snd (Analyze.analyze (Samples.env_answering (js "A cat."))
                Samples.cat_request (initial [])))
  = [EvReadFile (path Samples.cat_png);
     EvRespond
       {| status_code := 500;
          body := Analyze.errorResponse (Samples.env_answering (js "A cat."))
                    (js "Error encoding image: ENOENT: no such file or directory, open '"
                     ++ path Samples.cat_png ++ js "'") |};
     EvUnlink (path Samples.cat_png)].
Proof.
  rewrite (analyze_unreadable_file (Samples.env_answering (js "A cat."))
             Samples.cat_request Samples.cat_png []
             (ENOENT (js "open") (path Samples.cat_png)) eq_refl eq_refl).
  reflexivity.
Defined.

(** A file that was accepted for its MIME type under a name that ends in
    [.file type] is stored under a path with that ending; when it is gone
    by the time it is read, the answer is HTTP 415. *)
Example missing_file_type_file_is_answered_415 :
  map status_code
      (responses
         (trace (snd (Analyze.analyze (Samples.env_answering (js "A cat."))
                        {| file := Some Cases.odd_png; question := None |}
                        (initial [])))))
  = [415%Z].
Proof. vm_compute. reflexivity. Qed.

Lemma filter_true_when_absent p fs :
  existsb (eqs p) fs = false ->
  filter (fun q => negb (eqs p q)) fs = fs.
Proof.
  induction fs as [ | q fs IH]; [reflexivity | ].
  cbn [existsb filter]. intros H. apply orb_false_iff in H as [Hq Hfs].
  rewrite Hq. cbn [negb]. now rewrite IH.
Qed.

(** Whatever happens, the handler leaves every other file of the scratch
    directory where it is: the files afterwards are the files before,
    without the file of the request when the file system carried its
    unlink out, and all of them when it refused. *)
Theorem analyze_touches_only_its_file :
  forall env req fs,
    files (snd (Analyze.analyze env req (initial fs)))
    = match file req with
      | Some f =>
          match unlink_file env (path f) with
          | Normal _ => filter (fun q => negb (eqs (path f) q)) fs
          | Throw _ => fs
          end
      | None => fs
      end.
Proof.
  intros env req fs. destruct (file req) as [f | ] eqn:Hf.
  - step_handler. rewrite Hf.
    split_handler; try reflexivity; try congruence.
    all: symmetry; apply filter_true_when_absent; assumption.
  - step_handler. rewrite Hf. split_handler; reflexivity.
Qed.

(** When the call to the provider fails, the status of the answer is the
    status of the provider's response if the error has one (even when its
    code is that of a timeout), else 504 for the timeout code, else 415
    when the message contains [file type], else 500; the timeout answer
    carries its own text, the others the message of the error. *)
Theorem analyze_provider_failure :
  forall env req f fs b e,
    file req = Some f ->
    existsb (eqs (path f)) fs = true ->
    read_base64 env (path f) = Normal b ->
    truthy (OPENAI_API_KEY env) = true ->
    infer env (Analyze.asked req) b = Throw e ->
    responses (trace (snd (Analyze.analyze env req (initial fs))))
    = [match Analyze.upstream_status e with
       | Some st =>
           {| status_code := st;
              body := Analyze.errorResponse env
                        (Analyze.message_or_default e) |}
       | None =>
           if Analyze.timed_out e then
             {| status_code := 504;
                body := Analyze.errorResponse env
                          (js "Request timeout. Please try again.") |}
           else
             {| status_code :=
                  if includes (js "file type") (message e) then 415 else 500;
                body := Analyze.errorResponse env
                          (Analyze.message_or_default e) |}
       end].
Proof.
  intros env req f fs b e Hf Hex Hread Hkey Hinfer.
  step_handler. rewrite Hf. step_handler.
  rewrite Hex, Hread. step_handler. rewrite Hkey. cbn [negb]. step_handler.
  rewrite Hinfer. step_handler.
  destruct (Analyze.upstream_status e) as [st | ]; step_handler;
    [rewrite Hex; now destruct (unlink_file env (path f)) | ].
  destruct (Analyze.timed_out e); step_handler;
    [rewrite Hex; now destruct (unlink_file env (path f)) | ].
  destruct (includes (js "file type") (message e)); step_handler;
    rewrite Hex; now destruct (unlink_file env (path f)).
Qed.

Lemma analyze_provider_failure_witness :
  map status_code
      (responses
         (trace (snd (Analyze.analyze
                        (Samples.env_failing Cases.busy_and_timed_out)
                        Samples.cat_request (initial Samples.scratch)))))
  = [503%Z].
Proof.
  rewrite (analyze_provider_failure
             (Samples.env_failing Cases.busy_and_timed_out)
             Samples.cat_request Samples.cat_png Samples.scratch
             (js "iVBORw0KGgo=") Cases.busy_and_timed_out
             eq_refl eq_refl eq_refl eq_refl eq_refl).
  reflexivity.
Defined.

(** ** [POST /upload] *)

(** [/upload] sends exactly one response: HTTP 400 when the request has
    no file (and then nothing is read and the provider is not called),
    HTTP 200 in every other case.  Its 500 branch is never taken. *)
Theorem upload_answers_400_or_200 :
  forall env req fs,
    let w' := snd (Upload.upload env req (initial fs)) in
    match file req with
    | None =>
        trace w'
        = [EvRespond
             {| status_code := 400;
                body := JObject [(js "error", JString (js "No file uploaded"))] |}]
    | Some f =>
        map status_code (responses (trace w')) = [200%Z]
    end.
Proof.
  intros env req fs. destruct (file req) as [f | ] eqn:Hf;
    step_handler; rewrite Hf; [ | reflexivity].
  split_handler; reflexivity.
Qed.



(** When the answer of the provider neither parses nor holds a bracketed
    substring, the response is still HTTP 200 with the success message,
    and its body has no [objects] property at all. *)
Theorem upload_body_lacks_objects :
  forall env req f fs b content,
    file req = Some f ->
    existsb (eqs (path f)) fs = true ->
    read_base64 env (path f) = Normal b ->
    infer env Upload.prompt b = Normal content ->
    threw (JSON_parse content) = true ->
    threw (JSON_parse (trim (Detect.replace_fences content))) = true ->
    Detect.match_array content = None ->
    exists body,
      responses (trace (snd (Upload.upload env req (initial fs))))
      = [{| status_code := 200; body := body |}] /\
      prop (js "message") body
      = Some (JString (js "File uploaded and analyzed successfully")) /\
      prop (js "objects") body = None.
Proof.
  intros env req f fs b content Hf Hex Hread Hinfer Hwhole Hstrip Hmatch.
  assert (Hextract : Detect.extractJsonFromResponse content
                     = Normal Detect.Undefined).
  { unfold Detect.extractJsonFromResponse, Detect.parsed.
    destruct (JSON_parse content); [discriminate | ].
    destruct (JSON_parse (trim (Detect.replace_fences content)));
      [discriminate | ].
    cbn [cbind try_catch]. now rewrite Hmatch. }
  step_handler. rewrite Hf. step_handler.
  rewrite Hex, Hread. step_handler. rewrite Hinfer. step_handler.
  rewrite Hextract.
  eexists. split; [reflexivity | split; reflexivity].
Qed.

Lemma upload_body_lacks_objects_witness :
  exists body,
    responses
      (trace (snd (Upload.upload
                     (Samples.env_answering (js "I can see a cat and a dog."))
                     Samples.cat_request (initial Samples.scratch))))
    = [{| status_code := 200; body := body |}] /\
    prop (js "message") body
    = Some (JString (js "File uploaded and analyzed successfully")) /\
    prop (js "objects") body = None.
Proof.
  apply (upload_body_lacks_objects
           (Samples.env_answering (js "I can see a cat and a dog."))
           Samples.cat_request Samples.cat_png Samples.scratch
           (js "iVBORw0KGgo=") (js "I can see a cat and a dog."));
    reflexivity.
Defined.

(** When the file cannot be read, [/upload] does not call the provider; it
    answers HTTP 200 with one object whose label is the message of the
    file system behind [Error: ] and whose confidence is 0, a well-formed
    list of Detections. *)
Theorem upload_unreadable_file :
  forall env req f fs e,
    file req = Some f ->
    (if existsb (eqs (path f)) fs then read_base64 env (path f)
     else Throw (ENOENT (js "open") (path f))) = Throw e ->
    trace (snd (Upload.upload env req (initial fs)))
    = [EvReadFile (path f);
       EvRespond
         {| status_code := 200;
            body := JObject
                      [(js "message",
                        JString (js "File uploaded and analyzed successfully"));
                       (js "file", json_of_file f);
                       (js "objects",
                        Detect.json_of_detections
                          [{| Detect.label := js "Error: " ++ message e;
                              Detect.confidence := zero |}])] |}] /\
    Detect.isDetectionList
      (Detect.Val (Upload.error_objects (message e))) = true.
Proof.
  intros env req f fs e Hf Hread. split; [ | reflexivity].
  step_handler. rewrite Hf. step_handler.
  destruct (existsb (eqs (path f)) fs) eqn:Hex;
    [rewrite Hread | injection Hread as He; rewrite He]; reflexivity.
Qed.

Lemma upload_unreadable_file_witness :
  map status_code
      (responses (trace (snd (Upload.upload (Samples.env_answering (js "[]"))
                                Samples.cat_request (initial [])))))
  = [200%Z].
Proof.
  destruct (upload_unreadable_file (Samples.env_answering (js "[]"))
              Samples.cat_request Samples.cat_png []
              (ENOENT (js "open") (path Samples.cat_png)) eq_refl eq_refl)
    as [Htrace _].
  rewrite Htrace. reflexivity.
Defined.

(* ================================================================== *)
(** * The layers of the extractor on whole classes of texts *)
(* ================================================================== *)

Local Open Scope N_scope.

(** ** Splitting a string at a code unit *)

Lemma split_first (c : N) (l : list N) :
  absent c l \/
  exists a b, l = a ++ c :: b /\ absent c a.
Proof.
  induction l as [ | x l IH]; [now left | ].
  destruct (x =? c) eqn:E.
  - apply N.eqb_eq in E. subst x. right. now exists [], l.
  - destruct IH as [IH | (a & b & -> & Ha)].
    + left. cbn [forallb]. now rewrite E, IH.
    + right. exists (x :: a), b. split; [reflexivity | ].
      cbn [forallb]. now rewrite E, Ha.
Qed.

Lemma split_last (c : N) (l : list N) :
  absent c l \/
  exists a b, l = a ++ c :: b /\ absent c b.
Proof.
  induction l as [ | x l IH]; [now left | ].
  destruct IH as [IH | (a & b & -> & Hb)].
  - destruct (x =? c) eqn:E.
    + apply N.eqb_eq in E. subst x. right. now exists [], l.
    + left. cbn [forallb]. now rewrite E, IH.
  - right. now exists (x :: a), b.
Qed.

Lemma absent_app c a b : absent c (a ++ b) <-> absent c a /\ absent c b.
Proof. rewrite forallb_app. apply andb_true_iff. Qed.

Lemma absent_cons_self c s : ~ absent c (c :: s).
Proof. cbn [forallb]. rewrite N.eqb_refl. discriminate. Qed.

(** ** The bracket pattern *)

Lemma from_first_found c pre s :
  absent c pre -> Detect.from_first c (pre ++ c :: s) = Some (c :: s).
Proof.
  induction pre as [ | x pre IH]; intros H; cbn [app Detect.from_first].
  - now rewrite N.eqb_refl.
  - cbn [forallb] in H. apply andb_true_iff in H as [Hx H].
    apply negb_true_iff in Hx. rewrite Hx. now apply IH.
Qed.

Lemma from_first_absent c s :
  absent c s -> Detect.from_first c s = None.
Proof.
  induction s as [ | x s IH]; intros H; [reflexivity | ].
  cbn [forallb] in H. apply andb_true_iff in H as [Hx H].
  apply negb_true_iff in Hx. cbn [Detect.from_first]. rewrite Hx. now apply IH.
Qed.

Lemma upto_last_absent c s :
  absent c s -> Detect.upto_last c s = None.
Proof.
  induction s as [ | x s IH]; intros H; [reflexivity | ].
  cbn [forallb] in H. apply andb_true_iff in H as [Hx H].
  apply negb_true_iff in Hx. cbn [Detect.upto_last]. now rewrite (IH H), Hx.
Qed.

Lemma upto_last_found c mid post :
  absent c post -> Detect.upto_last c (mid ++ c :: post) = Some (mid ++ [c]).
Proof.
  intros H. induction mid as [ | x mid IH]; cbn [app Detect.upto_last].
  - now rewrite (upto_last_absent c post H), N.eqb_refl.
  - now rewrite IH.
Qed.

(** The pattern matches from the first opening bracket to the last
    closing bracket after it, and it matches nothing else. *)
Lemma match_array_first_to_last :
  forall text m,
    Detect.match_array text = Some m <->
    exists pre mid post,
      text = pre ++ 91 :: mid ++ 93 :: post /\
      m = 91 :: mid ++ [93] /\
      absent 91 pre /\ absent 93 post.
Proof.
  intros text m. unfold Detect.match_array. split.
  - destruct (split_first 91 text) as [Hno | (pre & r & -> & Hpre)].
    + now rewrite (from_first_absent 91 text Hno).
    + rewrite (from_first_found 91 pre r Hpre).
      destruct (split_last 93 r) as [Hno | (mid & post & -> & Hpost)].
      * now rewrite (upto_last_absent 93 r Hno).
      * rewrite (upto_last_found 93 mid post Hpost). intros H.
        injection H as <-. now exists pre, mid, post.
  - intros (pre & mid & post & -> & -> & Hpre & Hpost).
    now rewrite (from_first_found 91 pre _ Hpre),
      (upto_last_found 93 mid post Hpost).
Qed.

Lemma same_first c a b pre s :
  absent c a -> a ++ c :: b = pre ++ c :: s -> exists u, b = u ++ s.
Proof.
  revert pre. induction a as [ | x a IH]; intros [ | y pre] Ha H;
    cbn [app] in H.
  - injection H as ->. now exists [].
  - injection H as <- ->. exists (pre ++ [c]). now rewrite <- app_assoc.
  - injection H as -> _. now apply absent_cons_self in Ha.
  - injection H as _ H. cbn [forallb] in Ha.
    apply andb_true_iff in Ha as [_ Ha]. now apply (IH pre).
Qed.

(** There is no match exactly when no opening bracket has a closing
    bracket somewhere after it. *)
Lemma match_array_none text :
  Detect.match_array text = None <->
  forall pre mid post, text <> pre ++ 91 :: mid ++ 93 :: post.
Proof.
  split.
  - intros Hnone pre mid post ->.
    destruct (split_first 91 (pre ++ 91 :: mid ++ 93 :: post))
      as [Hno | (a & b & Hab & Ha)].
    + apply absent_app in Hno as [_ Hno]. now apply absent_cons_self in Hno.
    + destruct (same_first 91 a b pre _ Ha (eq_sym Hab)) as [u Hu].
      destruct (split_last 93 b) as [Hno | (mid' & post' & Hb & Hpost)].
      * rewrite Hu, app_assoc in Hno.
        apply absent_app in Hno as [_ Hno]. now apply absent_cons_self in Hno.
      * assert (Hsome : Detect.match_array (pre ++ 91 :: mid ++ 93 :: post)
                        = Some (91 :: mid' ++ [93])).
        { apply match_array_first_to_last. exists a, mid', post'.
          rewrite Hab, Hb. auto. }
        congruence.
  - intros Hno. destruct (Detect.match_array text) as [m | ] eqn:Hm;
      [ | reflexivity].
    apply match_array_first_to_last in Hm
      as (pre & mid & post & Htext & _). now apply Hno in Htext.
Qed.

(** [extractJsonFromResponse] returns [undefined] exactly for the texts
    that do not parse, do not parse without their fences either, and have
    no opening bracket with a closing bracket after it. *)
Theorem extract_undefined_iff :
  forall text,
    Detect.extractJsonFromResponse text = Normal Detect.Undefined <->
    threw (JSON_parse text) = true /\
    threw (JSON_parse (trim (Detect.replace_fences text))) = true /\
    forall pre mid post, text <> pre ++ 91 :: mid ++ 93 :: post.
Proof.
  intros text. rewrite <- match_array_none. split.
  - intros H.
    destruct (extract_layers text) as
      [v Hw | e v Hw Hs | e e2 m v Hw Hs Hm Hb | e e2 m e3 Hw Hs Hm Hb
       | e e2 Hw Hs Hm]; try discriminate.
    rewrite Hw, Hs. auto.
  - intros (Hw & Hs & Hm).
    unfold Detect.extractJsonFromResponse, Detect.parsed.
    destruct (JSON_parse text); [discriminate | ].
    destruct (JSON_parse (trim (Detect.replace_fences text)));
      [discriminate | ].
    cbn [cbind try_catch]. now rewrite Hm.
Qed.

(** ** Fenced answers *)

Lemma JSON_parse_backtick s : JSON_parse (96 :: s) = Throw SyntaxError.
Proof.
  unfold JSON_parse, parse_json.
  replace (2 * length (96%N :: s) + 2)%nat
    with (S (2 * length s + 3))%nat by (cbn [length]; lia).
  reflexivity.
Qed.

Lemma fence_match_plain c s :
  c <> 96 -> absent 96 s ->
  Detect.fence_match (c :: s ++ Detect.fence_close) = None.
Proof.
  intros Hc Hs. unfold Detect.fence_match.
  assert (H1 : startsWith Detect.fence_json (c :: s ++ Detect.fence_close)
               = false).
  { change Detect.fence_json with (96 :: js "``json" ++ [LF]).
    cbn [app startsWith]. apply N.eqb_neq in Hc.
    now rewrite N.eqb_sym, Hc. }
  assert (H2 : startsWith Detect.fence_close (c :: s ++ Detect.fence_close)
               = false).
  { change Detect.fence_close with (10 :: 96 :: js "``").
    cbn [startsWith]. destruct (10 =? c); [ | reflexivity]. cbn [andb].
    destruct s as [ | x s].
    - reflexivity.
    - cbn [forallb] in Hs. apply andb_true_iff in Hs as [Hx _].
      apply negb_true_iff in Hx. cbn [app startsWith].
      now rewrite N.eqb_sym, Hx. }
  assert (H3 : startsWith Detect.fence (c :: s ++ Detect.fence_close) = false).
  { change Detect.fence with (96 :: js "``").
    cbn [startsWith]. apply N.eqb_neq in Hc. now rewrite N.eqb_sym, Hc. }
  now rewrite H1, H2, H3.
Qed.

(** The replacement removes a closing fence and leaves a text without
    backticks before it as it is. *)
Lemma replace_fences_body body :
  absent 96 body ->
  Detect.replace_fences_from 0 (body ++ Detect.fence_close) = body.
Proof.
  induction body as [ | c body IH]; intros H; [reflexivity | ].
  cbn [forallb] in H. apply andb_true_iff in H as [Hc H].
  apply negb_true_iff, N.eqb_neq in Hc.
  cbn [app Detect.replace_fences_from].
  rewrite (fence_match_plain c body Hc H). now rewrite (IH H).
Qed.

(** An answer that is wrapped in a markdown fence, with or without the
    [json] tag, and holds no other backtick, is read through the second
    layer: the result is what [JSON.parse] makes of the trimmed inside. *)
Theorem extract_fenced_answer :
  forall body v,
    absent 96 body ->
    JSON_parse (trim body) = Normal v ->
    Detect.extractJsonFromResponse
      (Detect.fence_json ++ body ++ Detect.fence_close)
    = Normal (Detect.Val v) /\
    Detect.extractJsonFromResponse
      (Detect.fence ++ LF :: body ++ Detect.fence_close)
    = Normal (Detect.Val v).
Proof.
  intros body v Hbody Hparse.
  assert (Hjson : Detect.replace_fences
                    (Detect.fence_json ++ body ++ Detect.fence_close) = body).
  { change (Detect.replace_fences
              (Detect.fence_json ++ body ++ Detect.fence_close))
      with (Detect.replace_fences_from 0 (body ++ Detect.fence_close)).
    now apply replace_fences_body. }
  assert (Hbare : Detect.replace_fences
                    (Detect.fence ++ LF :: body ++ Detect.fence_close)
                  = LF :: body).
  { change (Detect.replace_fences
              (Detect.fence ++ LF :: body ++ Detect.fence_close))
      with (Detect.replace_fences_from 0
              ((LF :: body) ++ Detect.fence_close)).
    apply replace_fences_body. cbn [forallb]. now rewrite Hbody. }
  unfold Detect.extractJsonFromResponse, Detect.parsed. split.
  - change (Detect.fence_json ++ body ++ Detect.fence_close)
      with (96 :: (js "``json" ++ [LF]) ++ body ++ Detect.fence_close) at 1.
    rewrite JSON_parse_backtick. cbn [cbind try_catch].
    now rewrite Hjson, Hparse.
  - change (Detect.fence ++ LF :: body ++ Detect.fence_close)
      with (96 :: js "``" ++ LF :: body ++ Detect.fence_close) at 1.
    rewrite JSON_parse_backtick. cbn [cbind try_catch].
    rewrite Hbare. change (trim (LF :: body)) with (trim body).
    now rewrite Hparse.
Qed.

Lemma extract_fenced_answer_witness :
  Detect.extractJsonFromResponse
    (Detect.fence_json ++ js "[1, 2]" ++ Detect.fence_close)
  = Normal (Detect.Val (JArray [JNumber {| mant := 1; expo := 0 |};
                                JNumber {| mant := 2; expo := 0 |}])) /\
  Detect.extractJsonFromResponse
    (Detect.fence ++ LF :: js "[1, 2]" ++ Detect.fence_close)
  = Normal (Detect.Val (JArray [JNumber {| mant := 1; expo := 0 |};
                                JNumber {| mant := 2; expo := 0 |}])).
Proof.
  apply (extract_fenced_answer (js "[1, 2]")); reflexivity.
Defined.

(** ** Answers that hold an array among other text *)

(** The third layer: when neither the text nor the text without its
    fences parses, the matched substring decides. *)
Lemma extract_third_layer text m :
  threw (JSON_parse text) = true ->
  threw (JSON_parse (trim (Detect.replace_fences text))) = true ->
  Detect.match_array text = Some m ->
  Detect.extractJsonFromResponse text
  = Normal (Detect.Val
              (match JSON_parse m with
               | Normal v => v
               | Throw _ => Detect.sentinel
               end)).
Proof.
  intros Hw Hs Hm. unfold Detect.extractJsonFromResponse, Detect.parsed.
  destruct (JSON_parse text); [discriminate | ].
  destruct (JSON_parse (trim (Detect.replace_fences text)));
    [discriminate | ].
  cbn [cbind try_catch]. rewrite Hm. now destruct (JSON_parse m).
Qed.

Lemma match_array_found pre mid post :
  absent 91 pre -> absent 93 post ->
  Detect.match_array (pre ++ 91 :: mid ++ 93 :: post)
  = Some (91 :: mid ++ [93]).
Proof.
  intros Hpre Hpost. apply match_array_first_to_last.
  exists pre, mid, post. auto.
Qed.

(** When neither the text nor the text without its fences parses, the
    result is read from the first opening bracket to the last closing
    bracket: the value of that substring if it parses, and the sentinel
    list otherwise; what stands before and after it is dropped. *)
Theorem extract_bracketed_answer :
  forall pre mid post,
    absent 91 pre -> absent 93 post ->
    threw (JSON_parse (pre ++ 91 :: mid ++ 93 :: post)) = true ->
    threw (JSON_parse
             (trim (Detect.replace_fences (pre ++ 91 :: mid ++ 93 :: post))))
    = true ->
    Detect.extractJsonFromResponse (pre ++ 91 :: mid ++ 93 :: post)
    = Normal (Detect.Val
                (match JSON_parse (91 :: mid ++ [93]) with
                 | Normal v => v
                 | Throw _ => Detect.sentinel
                 end)).
Proof.
  intros pre mid post Hpre Hpost Hw Hs.
  apply (extract_third_layer _ _ Hw Hs).
  now apply match_array_found.
Qed.

Lemma extract_bracketed_answer_witness :
  Detect.extractJsonFromResponse (js "I see [1, 2] and a ] more")
  = Normal (Detect.Val Detect.sentinel).
Proof.
  apply (extract_bracketed_answer (js "I see ") (js "1, 2] and a ")
           (js " more")); reflexivity.
Defined.

(** A text that begins with a capital letter is no JSON text. *)
Lemma JSON_parse_capital c s :
  65 <= c <= 90 -> JSON_parse (c :: s) = Throw SyntaxError.
Proof.
  intros Hc. unfold JSON_parse, parse_json.
  replace (2 * length (c :: s) + 2)%nat
    with (S (2 * length s + 3))%nat by (cbn [length]; lia).
  cbn [parse_value skip_ws]. unfold isJsonWs.
  repeat match goal with
         | |- context [c =? ?k] =>
             destruct (N.eqb_spec c k) as [? | _]; [lia | ]
         end.
  cbn [orb]. unfold js. cbn [list_ascii_of_string map N_of_ascii startsWith].
  cbv [N_of_ascii N_of_digits N.add N.mul].
  repeat match goal with
         | |- context [?k =? c] =>
             destruct (N.eqb_spec k c) as [? | _]; [lia | ]
         end.
  cbn [andb].
  unfold parse_number, parse_magnitude, parse_int.
  repeat match goal with
         | |- context [c =? ?k] =>
             destruct (N.eqb_spec c k) as [? | _]; [lia | ]
         end.
  cbn [span_digits]. unfold isDigit.
  destruct (N.leb_spec c 57) as [? | _]; [lia | ].
  now rewrite andb_false_r.
Qed.

Lemma trimStart_snoc l c :
  isWhiteSpace c = false -> exists l', trimStart (l ++ [c]) = l' ++ [c].
Proof.
  intros Hc. induction l as [ | x l [l' IH]]; cbn [app trimStart].
  - rewrite Hc. now exists [].
  - destruct (isWhiteSpace x); [now exists l' | now exists (x :: l)].
Qed.

Lemma trim_head c s :
  isWhiteSpace c = false -> exists s', trim (c :: s) = c :: s'.
Proof.
  intros Hc. unfold trim, trimEnd. cbn [trimStart]. rewrite Hc.
  cbn [rev]. destruct (trimStart_snoc (rev s) c Hc) as [l' ->].
  exists (rev l'). now rewrite rev_app_distr.
Qed.

(** A text that begins with a capital letter is no JSON text without its
    fences either. *)
Lemma JSON_parse_stripped_capital c s :
  65 <= c <= 90 ->
  JSON_parse (trim (Detect.replace_fences (c :: s))) = Throw SyntaxError.
Proof.
  intros Hc.
  assert (Hf : Detect.fence_match (c :: s) = None).
  { unfold Detect.fence_match.
    change Detect.fence_json with (96 :: js "``json" ++ [LF]).
    change Detect.fence_close with (10 :: 96 :: js "``").
    change Detect.fence with (96 :: js "``").
    cbn [app startsWith].
    destruct (N.eqb_spec 96 c) as [? | _]; [lia | ].
    destruct (N.eqb_spec 10 c) as [? | _]; [lia | ]. reflexivity. }
  unfold Detect.replace_fences. cbn [Detect.replace_fences_from].
  rewrite Hf.
  assert (Hw : isWhiteSpace c = false).
  { unfold isWhiteSpace.
    repeat match goal with
           | |- context [c =? ?k] =>
               destruct (N.eqb_spec c k) as [? | _]; [lia | ]
           end.
    destruct (N.leb_spec 8192 c) as [? | _]; [lia | ]. reflexivity. }
  destruct (trim_head c (Detect.replace_fences_from 0 s) Hw) as [s' ->].
  now apply JSON_parse_capital.
Qed.

(** A printed list of well-formed detections inside a sentence is found:
    when the answer begins with a capital letter, has no opening bracket
    before the list and no closing bracket after it, the result is the
    list. *)
Theorem extract_list_in_prose :
  forall c pre ds post,
    65 <= c <= 90 ->
    absent 91 pre -> absent 93 post ->
    forallb Detect.well_formed ds = true ->
    Detect.extractJsonFromResponse
      (c :: pre ++ JSON_stringify (Detect.json_of_detections ds) ++ post)
    = Normal (Detect.Val (Detect.json_of_detections ds)).
Proof.
  intros c pre ds post Hc Hpre Hpost Hwf.
  pose proof (parse_json_detections ds Hwf) as Hparse.
  rewrite JSON_stringify_detections in Hparse |- *.
  set (mid := join [44] (map Detect.printed_detection ds)) in *.
  assert (Htext : c :: pre ++ (91 :: mid ++ [93]) ++ post
                  = (c :: pre) ++ 91 :: mid ++ 93 :: post).
  { cbn [app]. now rewrite <- (app_assoc mid [93] post). }
  rewrite Htext.
  rewrite (extract_third_layer _ (91 :: mid ++ [93])).
  - unfold JSON_parse. now rewrite Hparse.
  - cbn [app]. now rewrite (JSON_parse_capital c _ Hc).
  - cbn [app]. now rewrite (JSON_parse_stripped_capital c _ Hc).
  - apply match_array_found; [ | exact Hpost].
    cbn [forallb]. rewrite Hpre.
    destruct (N.eqb_spec c 91) as [? | _]; [lia | reflexivity].
Qed.

Lemma extract_list_in_prose_witness :
  Detect.extractJsonFromResponse
    (js "Here is what I found: "
     ++ JSON_stringify (Detect.json_of_detections Samples.cat_and_dog)
     ++ js ". Anything else?")
  = Normal (Detect.Val (Detect.json_of_detections Samples.cat_and_dog)).
Proof.
  apply (extract_list_in_prose 72 (js "ere is what I found: ")
           Samples.cat_and_dog (js ". Anything else?"));
    [lia | reflexivity | reflexivity | reflexivity].
Defined.

(* ================================================================== *)
(** * File names: [path.extname], the filters and the stored names *)
(* ================================================================== *)

(** ** The scan of [path.extname], phase by phase *)

Lemma loop_slashes k : forall r i st,
  Analyze.matchedSlash st = true ->
  Analyze.extname_loop (repeat 47 k ++ r) i st
  = Analyze.extname_loop r (i - Z.of_nat k) st.
Proof.
  induction k as [ | k IH]; intros r i st Hst.
  - cbn [repeat app]. f_equal. lia.
  - cbn [repeat app Analyze.extname_loop]. rewrite N.eqb_refl, Hst.
    cbn [negb]. rewrite (IH r _ st Hst). f_equal. lia.
Qed.

(** The end of the name is where the first code unit that is no slash
    stands. *)
Lemma loop_end c r i :
  c <> 47 -> (0 <= i)%Z ->
  Analyze.extname_loop (c :: r) i (Analyze.Build_scan (-1) 0 (-1) true 0)
  = Analyze.extname_loop (c :: r) i
      (Analyze.Build_scan (-1) 0 (i + 1) false 0).
Proof.
  intros Hc Hi. cbn [Analyze.extname_loop].
  apply N.eqb_neq in Hc. rewrite Hc.
  cbn [Analyze.end_ Analyze.startDot Analyze.startPart Analyze.matchedSlash
       Analyze.preDotState].
  change (-1 =? -1)%Z with true. cbv iota.
  destruct (Z.eqb_spec (i + 1) (-1)) as [? | _]; [lia | ]. reflexivity.
Qed.

Lemma loop_ext l : forall r i sp e pds,
  absent 47 l -> absent 46 l -> e <> (-1)%Z ->
  Analyze.extname_loop (l ++ r) i (Analyze.Build_scan (-1) sp e false pds)
  = Analyze.extname_loop r (i - Z.of_nat (length l))
      (Analyze.Build_scan (-1) sp e false pds).
Proof.
  induction l as [ | c l IH]; intros r i sp e pds Hs Hd He.
  - cbn [app length]. f_equal. lia.
  - cbn [forallb] in Hs, Hd.
    apply andb_true_iff in Hs as [Hc47 Hs].
    apply andb_true_iff in Hd as [Hc46 Hd].
    apply negb_true_iff in Hc47, Hc46.
    cbn [app Analyze.extname_loop]. rewrite Hc47, Hc46.
    cbn [Analyze.end_ Analyze.startDot Analyze.startPart Analyze.matchedSlash
         Analyze.preDotState].
    apply Z.eqb_neq in He. rewrite He.
    cbn [Analyze.end_ Analyze.startDot Analyze.startPart Analyze.matchedSlash
         Analyze.preDotState].
    change (-1 =? -1)%Z with true. cbn [negb].
    rewrite (IH r _ sp e pds Hs Hd). 
    + f_equal. cbn [length]. lia.
    + now apply Z.eqb_neq.
Qed.

Lemma loop_dot r i sp e pds :
  e <> (-1)%Z ->
  Analyze.extname_loop (46 :: r) i (Analyze.Build_scan (-1) sp e false pds)
  = Analyze.extname_loop r (i - 1) (Analyze.Build_scan i sp e false pds).
Proof.
  intros He. cbn [Analyze.extname_loop].
  change (46 =? 47) with false. change (46 =? 46) with true. cbv iota.
  cbn [Analyze.end_ Analyze.startDot Analyze.startPart Analyze.matchedSlash
       Analyze.preDotState].
  apply Z.eqb_neq in He. rewrite He.
  cbn [Analyze.end_ Analyze.startDot Analyze.startPart Analyze.matchedSlash
       Analyze.preDotState].
  reflexivity.
Qed.

(** Before the dot, each code unit sets the state anew: 1 for a dot, -1
    for anything else. *)
Lemma loop_base_unit c r i sd sp e pds :
  c <> 47 -> sd <> (-1)%Z -> e <> (-1)%Z ->
  Analyze.extname_loop (c :: r) i (Analyze.Build_scan sd sp e false pds)
  = Analyze.extname_loop r (i - 1)
      (Analyze.Build_scan sd sp e false (if c =? 46 then 1 else -1)).
Proof.
  intros Hc Hsd He. cbn [Analyze.extname_loop].
  apply N.eqb_neq in Hc. rewrite Hc.
  cbn [Analyze.end_ Analyze.startDot Analyze.startPart Analyze.matchedSlash
       Analyze.preDotState].
  apply Z.eqb_neq in He, Hsd. rewrite He.
  cbn [Analyze.end_ Analyze.startDot Analyze.startPart Analyze.matchedSlash
       Analyze.preDotState].
  rewrite Hsd. cbn [negb].
  destruct (c =? 46); [ | reflexivity].
  destruct (Z.eqb_spec pds 1) as [-> | _]; reflexivity.
Qed.

Lemma loop_base l : forall sd sp e pds,
  absent 47 l -> sd <> (-1)%Z -> e <> (-1)%Z ->
  exists pds', forall r i,
    Analyze.extname_loop (l ++ r) i (Analyze.Build_scan sd sp e false pds)
    = Analyze.extname_loop r (i - Z.of_nat (length l))
        (Analyze.Build_scan sd sp e false pds').
Proof.
  induction l as [ | c l IH]; intros sd sp e pds Hs Hsd He.
  - exists pds. intros r i. cbn [app length]. f_equal. lia.
  - cbn [forallb] in Hs. apply andb_true_iff in Hs as [Hc Hs].
    apply negb_true_iff, N.eqb_neq in Hc.
    destruct (IH sd sp e (if (c =? 46)%N then 1 else -1)%Z Hs Hsd He)
      as [pds' Hl].
    exists pds'. intros r i. cbn [app].
    rewrite (loop_base_unit c _ i sd sp e pds Hc Hsd He), Hl.
    f_equal. cbn [length]. lia.
Qed.

(** The state that the part before the dot leaves: 0 when it is empty,
    and else what its first code unit sets. *)
Lemma loop_base_rev base : forall sd sp e,
  absent 47 base -> sd <> (-1)%Z -> e <> (-1)%Z ->
  forall r i,
    Analyze.extname_loop (rev base ++ r) i
      (Analyze.Build_scan sd sp e false 0)
    = Analyze.extname_loop r (i - Z.of_nat (length base))
        (Analyze.Build_scan sd sp e false
           match base with
           | [] => 0
           | c :: _ => if c =? 46 then 1 else -1
           end).
Proof.
  intros sd sp e Hs Hsd He r i. destruct base as [ | c b].
  - cbn [rev app length]. f_equal. lia.
  - cbn [forallb] in Hs. apply andb_true_iff in Hs as [Hc Hs].
    apply negb_true_iff, N.eqb_neq in Hc.
    assert (Hrev : absent 47 (rev b)).
    { rewrite forallb_forall in Hs |- *. intros x Hx.
      apply Hs. now apply in_rev. }
    destruct (loop_base (rev b) sd sp e 0%Z Hrev Hsd He) as [pds' Hl].
    cbn [rev]. rewrite <- app_assoc, Hl. cbn [app].
    rewrite (loop_base_unit c r _ sd sp e pds' Hc Hsd He).
    f_equal. rewrite length_rev. cbn [length]. lia.
Qed.

(** The scan stops at the slash before the name, or at the start of the
    path. *)
Lemma loop_stop pre i sd sp e pds :
  pre = [] \/ (exists q, pre = q ++ [47]) ->
  (pre = [] -> sp = 0%Z) ->
  Analyze.extname_loop (rev pre) i (Analyze.Build_scan sd sp e false pds)
  = Analyze.Build_scan sd match pre with [] => sp | _ :: _ => i + 1 end
      e false pds.
Proof.
  intros [-> | [q ->]] Hsp.
  - reflexivity.
  - rewrite rev_app_distr. cbn [rev app Analyze.extname_loop].
    change (47 =? 47) with true. cbv iota.
    cbn [Analyze.end_ Analyze.startDot Analyze.startPart Analyze.matchedSlash
         Analyze.preDotState negb].
    now destruct q.
Qed.

Lemma skipn_length_app {A} (a b : list A) : skipn (length a) (a ++ b) = b.
Proof. induction a as [ | x a IH]; [reflexivity | exact IH]. Qed.

Lemma firstn_length_app {A} (a b : list A) : firstn (length a) (a ++ b) = a.
Proof.
  induction a as [ | x a IH]; [reflexivity | ]. cbn [length app firstn].
  now rewrite IH.
Qed.

(** [path.extname] on a path whose last portion has a dot: [pre] is what
    stands before the portion (nothing, or something that ends in a
    slash), the portion is [base], the dot and [ext], and [k] slashes
    follow. *)
Lemma extname_dotted pre base ext k :
  pre = [] \/ (exists q, pre = q ++ [47]) ->
  absent 47 base -> absent 47 ext -> absent 46 ext ->
  Analyze.extname (pre ++ base ++ 46 :: ext ++ repeat 47 k)
  = match base, ext with
    | [], _ => []
    | [c], [] => if c =? 46 then [] else [46]
    | _, _ => 46 :: ext
    end.
Proof.
  intros Hpre Hbase Hext Hdot. unfold Analyze.extname.
  set (p := pre ++ base ++ 46 :: ext ++ repeat 47 k).
  assert (Hlen : Z.of_nat (length p)
                 = (Z.of_nat (length pre) + Z.of_nat (length base) + 1
                    + Z.of_nat (length ext) + Z.of_nat k)%Z).
  { subst p. rewrite !length_app. cbn [length]. rewrite length_app.
    rewrite repeat_length. lia. }
  assert (Hrev : rev p
                 = repeat 47 k ++ (rev ext ++ [46]) ++ rev base ++ rev pre).
  { subst p. rewrite !rev_app_distr. cbn [rev]. rewrite !rev_app_distr.
    rewrite rev_repeat. now rewrite <- !app_assoc. }
  rewrite Hrev. rewrite loop_slashes by reflexivity.
  assert (Hrext47 : absent 47 (rev ext)).
  { rewrite forallb_forall in Hext |- *. intros x Hx.
    apply Hext. now apply in_rev. }
  assert (Hrext46 : absent 46 (rev ext)).
  { rewrite forallb_forall in Hdot |- *. intros x Hx.
    apply Hdot. now apply in_rev. }
  assert (Hhead : exists c l, rev ext ++ [46] = c :: l /\ c <> 47).
  { destruct (rev ext) as [ | c l].
    - exists 46, []. split; [reflexivity | discriminate].
    - exists c, (l ++ [46]). split; [reflexivity | ].
      cbn [forallb] in Hrext47. apply andb_true_iff in Hrext47 as [Hc _].
      now apply negb_true_iff, N.eqb_neq in Hc. }
  destruct Hhead as (c & l & Hcl & Hc).
  rewrite Hcl. cbn [app]. rewrite loop_end by (exact Hc || lia).
  change (c :: l ++ rev base ++ rev pre)
    with ((c :: l) ++ rev base ++ rev pre).
  rewrite <- Hcl, <- app_assoc.
  rewrite loop_ext by (assumption || lia). cbn [app].
  rewrite length_rev, loop_dot by lia.
  rewrite loop_base_rev by (assumption || lia).
  rewrite loop_stop.
  2: exact Hpre.
  2: reflexivity.
  cbn [Analyze.end_ Analyze.startDot Analyze.startPart Analyze.matchedSlash
       Analyze.preDotState].
  set (sd := (Z.of_nat (length p) - 1 - Z.of_nat k
              - Z.of_nat (length ext))%Z).
  set (e := (Z.of_nat (length p) - 1 - Z.of_nat k + 1)%Z).
  set (sp := match pre with
             | [] => 0%Z
             | _ :: _ => (sd - 1 - Z.of_nat (length base) + 1)%Z
             end).
  assert (Hsd : sd = (Z.of_nat (length pre) + Z.of_nat (length base))%Z)
    by lia.
  assert (He : e = (sd + 1 + Z.of_nat (length ext))%Z) by lia.
  assert (Hsp : sp = Z.of_nat (length pre)).
  { subst sp. destruct pre; [reflexivity | lia]. }
  destruct (Z.eqb_spec sd (-1)) as [? | _]; [lia | ].
  destruct (Z.eqb_spec e (-1)) as [? | _]; [lia | ].
  cbn [orb].
  assert (Hslice : Analyze.slice sd e p = 46 :: ext).
  { unfold Analyze.slice.
    replace (Z.to_nat sd) with (length (pre ++ base))
      by (rewrite length_app; lia).
    replace (Z.to_nat (e - sd)) with (length (46 :: ext))
      by (cbn [length]; lia).
    subst p. rewrite (app_assoc pre base), skipn_length_app.
    change (46 :: ext ++ repeat 47 k) with ((46 :: ext) ++ repeat 47 k).
    apply firstn_length_app. }
  rewrite Hslice.
  destruct base as [ | b base].
  - reflexivity.
  - assert (Hpds : ((if (b =? 46)%N then 1 else -1) =? 0)%Z = false)
      by now destruct (b =? 46).
    rewrite Hpds. cbn [orb].
    destruct (N.eqb_spec b 46) as [-> | Hb].
    + change (1 =? 1)%Z with true. cbn [andb].
      destruct (Z.eqb_spec sd (e - 1)) as [Hx | Hx];
        destruct (Z.eqb_spec sd (sp + 1)) as [Hy | Hy]; cbn [andb].
      * destruct ext; [ | cbn [length] in He; lia].
        destruct base; [reflexivity | cbn [length] in Hsd; lia].
      * destruct base; [cbn [length] in Hsd; lia | ].
        now destruct ext.
      * destruct ext; [cbn [length] in He; lia | ].
        now destruct base.
      * destruct ext; [cbn [length] in He; lia | ].
        now destruct base.
    + change (-1 =? 1)%Z with false. cbn [andb].
      destruct base; destruct ext; reflexivity.
Qed.

(** [path.extname] on a path whose last portion has no dot. *)
Lemma extname_plain pre comp k :
  pre = [] \/ (exists q, pre = q ++ [47]) ->
  absent 47 comp -> absent 46 comp -> (comp = [] -> pre = []) ->
  Analyze.extname (pre ++ comp ++ repeat 47 k) = [].
Proof.
  intros Hpre Hs Hd Hnil. unfold Analyze.extname.
  set (p := pre ++ comp ++ repeat 47 k).
  assert (Hlen : Z.of_nat (length p)
                 = (Z.of_nat (length pre) + Z.of_nat (length comp)
                    + Z.of_nat k)%Z).
  { subst p. rewrite !length_app, repeat_length. lia. }
  assert (Hrev : rev p = repeat 47 k ++ rev comp ++ rev pre).
  { subst p. rewrite !rev_app_distr, rev_repeat. now rewrite <- app_assoc. }
  rewrite Hrev, loop_slashes by reflexivity.
  destruct comp as [ | x comp].
  - rewrite (Hnil eq_refl). reflexivity.
  - assert (Hr47 : absent 47 (rev (x :: comp))).
    { rewrite forallb_forall in Hs |- *. intros y Hy.
      apply Hs. now apply in_rev. }
    assert (Hr46 : absent 46 (rev (x :: comp))).
    { rewrite forallb_forall in Hd |- *. intros y Hy.
      apply Hd. now apply in_rev. }
    assert (Hhead : exists c l, rev (x :: comp) = c :: l /\ c <> 47).
    { destruct (rev (x :: comp)) as [ | c l] eqn:E.
      - apply (f_equal (@length N)) in E. rewrite length_rev in E.
        discriminate.
      - exists c, l. split; [reflexivity | ].
        cbn [forallb] in Hr47. apply andb_true_iff in Hr47 as [Hc _].
        now apply negb_true_iff, N.eqb_neq in Hc. }
    destruct Hhead as (c & l & Hcl & Hc).
    rewrite Hcl. cbn [app].
    rewrite loop_end by (exact Hc || cbn [length] in Hlen; lia).
    change (c :: l ++ rev pre) with ((c :: l) ++ rev pre).
    rewrite <- Hcl.
    rewrite loop_ext by (assumption || cbn [length] in Hlen; lia).
    rewrite loop_stop; [reflexivity | exact Hpre | reflexivity].
Qed.

(** Every path is some slashes after a last portion without slashes,
    after nothing or something that ends in a slash. *)
Lemma trailing_slashes p :
  exists q k, p = q ++ repeat 47 k /\
              (q = [] \/ exists q' c, q = q' ++ [c] /\ c <> 47).
Proof.
  induction p as [ | x p IH] using rev_ind.
  - exists [], 0%nat. auto.
  - destruct (N.eqb_spec x 47) as [-> | Hx].
    + destruct IH as (q & k & -> & Hq). exists q, (S k). split; [ | exact Hq].
      rewrite <- app_assoc. f_equal. change [47] with (repeat 47 1).
      rewrite <- repeat_app. f_equal. lia.
    + exists (p ++ [x]), 0%nat. split; [now rewrite app_nil_r | ].
      right. now exists p, x.
Qed.

Lemma last_portion p :
  exists pre comp k,
    p = pre ++ comp ++ repeat 47 k /\
    (pre = [] \/ exists q, pre = q ++ [47]) /\
    absent 47 comp /\ (comp = [] -> pre = []).
Proof.
  destruct (trailing_slashes p) as (q & k & -> & [-> | (q' & c & -> & Hc)]).
  - exists [], [], k. auto.
  - destruct (split_last 47 (q' ++ [c])) as [Hno | (a & b & Hab & Hb)].
    + exists [], (q' ++ [c]), k. repeat split; auto.
    + exists (a ++ [47]), b, k. repeat split.
      * rewrite Hab. now rewrite <- !app_assoc.
      * right. now exists a.
      * exact Hb.
      * intros ->. apply app_inj_tail in Hab as [_ Hab]. congruence.
Qed.

(** [path.extname] gives nothing, or a dot and then neither a dot nor a
    slash. *)
Lemma extname_shape p :
  Analyze.extname p = [] \/
  exists x, Analyze.extname p = 46 :: x /\ absent 46 x /\ absent 47 x.
Proof.
  destruct (last_portion p) as (pre & comp & k & -> & Hpre & Hs & Hnil).
  destruct (split_last 46 comp) as [Hno | (base & ext & -> & Hext)].
  - left. now apply extname_plain.
  - apply absent_app in Hs as [Hbase Hs]. cbn [forallb] in Hs.
    apply andb_true_iff in Hs as [_ Hs].
    rewrite <- app_assoc. cbn [app].
    rewrite (extname_dotted pre base ext k Hpre Hbase Hs Hext).
    destruct base as [ | b [ | b' base]].
    + now left.
    + destruct ext as [ | e ext].
      * destruct (b =? 46); [now left | right; now exists []].
      * right. now exists (e :: ext).
    + right. now exists ext.
Qed.

(** ** Letter case *)

Lemma lowerUnit_eqb c k :
  (k <? 65) = true -> (lowerUnit c =? k) = (c =? k).
Proof.
  intros Hk. apply N.ltb_lt in Hk. unfold lowerUnit.
  destruct (N.leb_spec 65 c); destruct (N.leb_spec c 90); cbn [andb];
    try reflexivity.
  destruct (N.eqb_spec (c + 32) k); destruct (N.eqb_spec c k);
    reflexivity || lia.
Qed.

Lemma lowerUnit_idem c : lowerUnit (lowerUnit c) = lowerUnit c.
Proof.
  unfold lowerUnit.
  destruct (N.leb_spec 65 c); destruct (N.leb_spec c 90); cbn [andb].
  - destruct (N.leb_spec 65 (c + 32)); destruct (N.leb_spec (c + 32) 90);
      cbn [andb]; reflexivity || lia.
  - destruct (N.leb_spec 65 c); destruct (N.leb_spec c 90); cbn [andb];
      reflexivity || lia.
  - destruct (N.leb_spec 65 c); destruct (N.leb_spec c 90); cbn [andb];
      reflexivity || lia.
  - destruct (N.leb_spec 65 c); destruct (N.leb_spec c 90); cbn [andb];
      reflexivity || lia.
Qed.

Lemma toLowerCase_idem s : toLowerCase (toLowerCase s) = toLowerCase s.
Proof.
  unfold toLowerCase. rewrite map_map. apply map_ext, lowerUnit_idem.
Qed.

Lemma absent_toLowerCase k s :
  (k <? 65) = true ->
  forallb (fun x => negb (x =? k)) (toLowerCase s)
  = forallb (fun x => negb (x =? k)) s.
Proof.
  intros Hk. unfold toLowerCase. induction s as [ | c s IH]; [reflexivity | ].
  cbn [map forallb]. now rewrite IH, (lowerUnit_eqb c k Hk).
Qed.

(** The scan of [path.extname] looks for dots and slashes only, which
    have no other case. *)
Lemma extname_loop_toLowerCase r : forall i st,
  Analyze.extname_loop (toLowerCase r) i st = Analyze.extname_loop r i st.
Proof.
  unfold toLowerCase.
  induction r as [ | c r IH]; intros i st; [reflexivity | ].
  cbn [map Analyze.extname_loop].
  rewrite (lowerUnit_eqb c 47 eq_refl), (lowerUnit_eqb c 46 eq_refl).
  now rewrite !IH.
Qed.

Lemma extname_toLowerCase p :
  Analyze.extname (toLowerCase p) = toLowerCase (Analyze.extname p).
Proof.
  unfold Analyze.extname.
  replace (rev (toLowerCase p)) with (toLowerCase (rev p))
    by (unfold toLowerCase; now rewrite map_rev).
  rewrite extname_loop_toLowerCase.
  replace (length (toLowerCase p)) with (length p)
    by (unfold toLowerCase; now rewrite length_map).
  match goal with
  | |- (if ?b then _ else _) = _ => destruct b; [reflexivity | ]
  end.
  unfold Analyze.slice, toLowerCase. now rewrite skipn_map, firstn_map.
Qed.

(** ** The extension test of [/analyze] *)

Lemma lower_literal e y :
  toLowerCase e = 46 :: y -> y <> [] -> absent 46 y -> absent 47 y ->
  exists x, e = 46 :: x /\ x <> [] /\ absent 46 x /\ absent 47 x.
Proof.
  intros He Hy H46 H47. destruct e as [ | c x]; [discriminate | ].
  cbn [toLowerCase map] in He. injection He as Hc Hx.
  assert (c = 46) as ->.
  { apply N.eqb_eq. rewrite <- (lowerUnit_eqb c 46 eq_refl), Hc.
    reflexivity. }
  exists x. repeat split.
  - intros ->. now apply Hy.
  - rewrite <- (absent_toLowerCase 46 x eq_refl). unfold toLowerCase.
    now rewrite Hx.
  - rewrite <- (absent_toLowerCase 47 x eq_refl). unfold toLowerCase.
    now rewrite Hx.
Qed.

(** What lower-cases to an allowed extension is a dot and then letters. *)
Lemma allowed_extension_shape e :
  mem (toLowerCase e) Analyze.allowedExtensions = true ->
  exists x, e = 46 :: x /\ x <> [] /\ absent 46 x /\ absent 47 x.
Proof.
  unfold mem, Analyze.allowedExtensions. cbn [existsb]. intros H.
  repeat (apply orb_true_iff in H as [H | H]); try discriminate;
    apply eqs_eq in H;
    (eapply lower_literal;
     [exact H | discriminate | reflexivity | reflexivity]).
Qed.

Lemma valid_extension_spec name :
    absent 47 name ->
    (Analyze.isValidExtension name = true <->
     exists base ext,
       name = base ++ ext /\ base <> [] /\
       mem (toLowerCase ext) Analyze.allowedExtensions = true).
Proof.
  intros Hname. unfold Analyze.isValidExtension, Analyze.extension.
  split.
  - intros H.
    destruct (split_last 46 name) as [Hno | (base & ext & -> & Hext)].
    + pose proof (extname_plain [] name 0 (or_introl eq_refl) Hname Hno
                    (fun _ => eq_refl)) as E.
      cbn [app repeat] in E. rewrite app_nil_r in E. rewrite E in H.
      discriminate.
    + apply absent_app in Hname as [Hbase Hs]. cbn [forallb] in Hs.
      apply andb_true_iff in Hs as [_ Hs].
      pose proof (extname_dotted [] base ext 0 (or_introl eq_refl)
                    Hbase Hs Hext) as E.
      cbn [app repeat] in E. rewrite app_nil_r in E. rewrite E in H.
      destruct base as [ | b base]; [discriminate | ].
      exists (b :: base), (46 :: ext). repeat split; [discriminate | ].
      destruct base; [ | exact H].
      destruct ext; [ | exact H].
      destruct (b =? 46); discriminate.
  - intros (base & ext & -> & Hbase & Hmem).
    destruct (allowed_extension_shape ext Hmem)
      as (x & -> & Hx & H46 & H47).
    apply absent_app in Hname as [Hb _].
    pose proof (extname_dotted [] base x 0 (or_introl eq_refl)
                  Hb H47 H46) as E.
    cbn [app repeat] in E. rewrite app_nil_r in E. rewrite E.
    destruct base as [ | b base]; [now contradiction Hbase | ].
    destruct x as [ | c x]; [now contradiction Hx | ].
    now destruct base.
Qed.

(** On a name without slashes, the extension test of [/analyze] holds
    exactly when the name is something, not empty, and then one of the
    four extensions in any letter case. *)
Theorem isValidExtension_iff :
  forall name,
    absent 47 name ->
    (Analyze.isValidExtension name = true <->
     exists base ext,
       name = base ++ ext /\ base <> [] /\
       mem (toLowerCase ext) Analyze.allowedExtensions = true).
Proof. exact valid_extension_spec. Qed.

Lemma isValidExtension_iff_witness :
  Analyze.isValidExtension (js "Holiday.2024.JPG") = true <->
  exists base ext,
    js "Holiday.2024.JPG" = base ++ ext /\ base <> [] /\
    mem (toLowerCase ext) Analyze.allowedExtensions = true.
Proof.
  apply (isValidExtension_iff (js "Holiday.2024.JPG")). reflexivity.
Defined.

(** ** The two filters side by side *)

Lemma startsWith_iff p : forall s,
  startsWith p s = true <-> exists r, s = p ++ r.
Proof.
  induction p as [ | c p IH]; intros s.
  - cbn [startsWith app]. split; [now exists s | reflexivity].
  - destruct s as [ | x s]; cbn [startsWith].
    + split; [discriminate | intros [r H]; discriminate].
    + rewrite andb_true_iff, N.eqb_eq, IH. split.
      * intros [-> [r ->]]. now exists r.
      * intros [r H]. injection H as -> ->. split; [reflexivity | ].
        now exists r.
Qed.

Lemma endsWith_iff x s :
  Upload.endsWith x s = true <-> exists b, s = b ++ x.
Proof.
  unfold Upload.endsWith. rewrite startsWith_iff. split.
  - intros [r H]. exists (rev r).
    rewrite <- (rev_involutive s), H, rev_app_distr.
    now rewrite rev_involutive.
  - intros [b ->]. exists (rev b). apply rev_app_distr.
Qed.

(** The pattern of [/upload] holds exactly when the name ends in one of
    the four extensions in any letter case. *)
Lemma image_name_spec name :
  Upload.image_name name = true <->
  exists base ext,
    name = base ++ ext /\
    mem (toLowerCase ext) Analyze.allowedExtensions = true.
Proof.
  unfold Upload.image_name. rewrite existsb_exists. split.
  - intros (x & Hin & Hends). apply endsWith_iff in Hends as [b Hb].
    apply map_eq_app in Hb as (base & ext & -> & _ & Hext).
    exists base, ext. split; [reflexivity | ].
    unfold toLowerCase. rewrite Hext.
    cbn [In] in Hin.
    destruct Hin as [<- | [<- | [<- | [<- | []]]]]; reflexivity.
  - intros (base & ext & -> & Hmem).
    exists (toLowerCase ext). split.
    + unfold mem, Analyze.allowedExtensions in Hmem. cbn [existsb] in Hmem.
      repeat (apply orb_true_iff in Hmem as [Hmem | Hmem]);
        try discriminate; apply eqs_eq in Hmem; rewrite Hmem;
        cbn [In]; auto.
    + apply endsWith_iff. exists (toLowerCase base).
      unfold toLowerCase. apply map_app.
Qed.

(** On names without slashes the extension test of [/analyze] accepts what
    the pattern of [/upload] accepts, but for the names that are an
    extension and nothing else, like [.png]. *)
Theorem filters_agree_on_plain_names :
  forall name,
    absent 47 name ->
    Analyze.isValidExtension name
    = Upload.image_name name
      && negb (mem (toLowerCase name) Analyze.allowedExtensions).
Proof.
  intros name Hname. apply eq_true_iff_eq.
  rewrite andb_true_iff, negb_true_iff, (valid_extension_spec name Hname),
    image_name_spec.
  split.
  - intros (base & ext & -> & Hbase & Hmem). split.
    + now exists base, ext.
    + destruct (mem (toLowerCase (base ++ ext)) Analyze.allowedExtensions)
        eqn:E; [ | reflexivity].
      apply allowed_extension_shape in E as (x & E & _ & H46 & _).
      apply allowed_extension_shape in Hmem as (y & -> & _).
      destruct base as [ | b base]; [now contradiction Hbase | ].
      cbn [app] in E. injection E as _ <-.
      apply absent_app in H46 as [_ H46].
      now apply absent_cons_self in H46.
  - intros [(base & ext & -> & Hmem) Hnot].
    exists base, ext. repeat split; [ | exact Hmem].
    intros ->. cbn [app] in Hnot. congruence.
Qed.

Lemma filters_agree_on_plain_names_witness :
  Analyze.isValidExtension (js ".png")
  = Upload.image_name (js ".png")
    && negb (mem (toLowerCase (js ".png")) Analyze.allowedExtensions).
Proof.
  apply (filters_agree_on_plain_names (js ".png")). reflexivity.
Defined.

(** ** The filter of [/analyze] as a whole *)

Lemma eqs_app p : forall a b, eqs (p ++ a) (p ++ b) = eqs a b.
Proof.
  induction p as [ | c p IH]; intros a b; [reflexivity | ].
  cbn [app eqs]. now rewrite N.eqb_refl, IH.
Qed.

(** For [application/octet-stream] the test of the MIME type is the test
    of the extension. *)
Lemma octet_stream_test name :
  Analyze.isValidMimeType name (js "application/octet-stream")
  = Analyze.isValidExtension name.
Proof.
  unfold Analyze.isValidMimeType, Analyze.normalizedMimeType,
    Analyze.isValidExtension, Analyze.extension.
  rewrite eqs_refl.
  destruct (extname_shape name) as [-> | (x & -> & _)]; [reflexivity | ].
  unfold toLowerCase at 2 3. cbn [map slice1 tl].
  change (lowerUnit 46) with 46.
  unfold toLowerCase. rewrite map_app, map_map.
  rewrite (map_ext _ _ (fun c => lowerUnit_idem c)).
  change (map lowerUnit (js "image/")) with (js "image/").
  unfold mem, Analyze.allowedMimeTypes, Analyze.allowedExtensions.
  cbn [existsb].
  change (js "image/jpeg") with (js "image/" ++ js "jpeg").
  change (js "image/jpg") with (js "image/" ++ js "jpg").
  change (js "image/png") with (js "image/" ++ js "png").
  change (js "image/gif") with (js "image/" ++ js "gif").
  rewrite !eqs_app.
  change (js ".jpeg") with (46 :: js "jpeg").
  change (js ".jpg") with (46 :: js "jpg").
  change (js ".png") with (46 :: js "png").
  change (js ".gif") with (46 :: js "gif").
  cbn [eqs]. now rewrite N.eqb_refl.
Qed.

Lemma accepts_spec name mime :
  Analyze.fileFilter name mime = Normal true <->
  mem (toLowerCase mime) Analyze.allowedMimeTypes = true \/
  Analyze.isValidExtension name = true.
Proof.
  unfold Analyze.fileFilter. rewrite <- orb_true_iff.
  assert (E : Analyze.isValidMimeType name mime
              || Analyze.isValidExtension name
              = mem (toLowerCase mime) Analyze.allowedMimeTypes
                || Analyze.isValidExtension name).
  { destruct (eqs mime (js "application/octet-stream")) eqn:Hm.
    - apply eqs_eq in Hm. subst mime. rewrite octet_stream_test.
      now destruct (Analyze.isValidExtension name).
    - unfold Analyze.isValidMimeType, Analyze.normalizedMimeType.
      now rewrite Hm. }
  rewrite E. clear E.
  destruct (_ || _); split; intros H; try reflexivity; discriminate.
Qed.

(** The filter of [/analyze] accepts exactly when the MIME type the client
    sent is an allowed one, in any letter case, or the extension is: the
    replacement of [application/octet-stream] by a type made from the
    extension never changes the decision. *)
Theorem fileFilter_accepts_iff :
  forall name mime,
    Analyze.fileFilter name mime = Normal true <->
    mem (toLowerCase mime) Analyze.allowedMimeTypes = true \/
    Analyze.isValidExtension name = true.
Proof. exact accepts_spec. Qed.

(** The decision of the filter of [/analyze] does not depend on the case
    of the letters A to Z in the name and in the MIME type. *)
Theorem fileFilter_ignores_case :
  forall name name' mime mime',
    toLowerCase name = toLowerCase name' ->
    toLowerCase mime = toLowerCase mime' ->
    (Analyze.fileFilter name mime = Normal true <->
     Analyze.fileFilter name' mime' = Normal true).
Proof.
  intros name name' mime mime' Hname Hmime. rewrite !accepts_spec.
  unfold Analyze.isValidExtension, Analyze.extension.
  now rewrite <- !extname_toLowerCase, Hname, Hmime.
Qed.

Lemma fileFilter_ignores_case_witness :
  Analyze.fileFilter (js "Cat.PNG") (js "Text/Plain") = Normal true <->
  Analyze.fileFilter (js "cat.png") (js "text/plain") = Normal true.
Proof.
  apply (fileFilter_ignores_case (js "Cat.PNG") (js "cat.png")
           (js "Text/Plain") (js "text/plain")); reflexivity.
Defined.

(** [path.extname] reads the last portion of a path and drops the slashes
    after it. *)
Lemma extname_last_portion dir name k :
  name <> [] -> absent 47 name ->
  Analyze.extname (dir ++ 47 :: name ++ repeat 47 k) = Analyze.extname name.
Proof.
  intros Hne Hname.
  assert (Hpre : dir ++ [47] = [] \/ exists q, dir ++ [47] = q ++ [47])
    by (right; now exists dir).
  change (dir ++ 47 :: name ++ repeat 47 k)
    with (dir ++ [47] ++ name ++ repeat 47 k).
  rewrite app_assoc.
  destruct (split_last 46 name) as [Hno | (base & ext & -> & Hext)].
  - rewrite (extname_plain (dir ++ [47]) name k Hpre Hname Hno)
      by (intros ->; now contradiction Hne).
    pose proof (extname_plain [] name 0 (or_introl eq_refl) Hname Hno
                  (fun _ => eq_refl)) as E.
    cbn [app repeat] in E. rewrite app_nil_r in E. now rewrite E.
  - apply absent_app in Hname as [Hbase Hs]. cbn [forallb] in Hs.
    apply andb_true_iff in Hs as [_ Hs].
    pose proof (extname_dotted [] base ext 0 (or_introl eq_refl)
                  Hbase Hs Hext) as E.
    cbn [app repeat] in E. rewrite app_nil_r in E. rewrite E.
    rewrite <- (app_assoc base (46 :: ext)). cbn [app].
    apply (extname_dotted (dir ++ [47]) base ext k Hpre Hbase Hs Hext).
Qed.

(** The filter of [/analyze] judges the last portion of the name: a
    directory before it and slashes after it change nothing, neither the
    decision nor the message of the rejection. *)
Theorem fileFilter_reads_last_portion :
  forall dir name k mime,
    name <> [] -> absent 47 name ->
    Analyze.fileFilter (dir ++ 47 :: name ++ repeat 47 k) mime
    = Analyze.fileFilter name mime.
Proof.
  intros dir name k mime Hne Hname.
  unfold Analyze.fileFilter, Analyze.isValidMimeType,
    Analyze.isValidExtension, Analyze.invalid_file_type,
    Analyze.normalizedMimeType, Analyze.extension.
  now rewrite (extname_last_portion dir name k Hne Hname).
Qed.

Lemma fileFilter_reads_last_portion_witness :
  Analyze.fileFilter (js "../etc/cat.png//") (js "text/plain")
  = Analyze.fileFilter (js "cat.png") (js "text/plain").
Proof.
  apply (fileFilter_reads_last_portion (js "../etc") (js "cat.png") 2
           (js "text/plain")); [intros H; cbv in H; discriminate H | reflexivity].
Defined.

(** ** The names of the stored files *)

Lemma digits_absent k n : (k <? 48) = true -> absent k (digits_of_N n).
Proof.
  intros Hk. apply N.ltb_lt in Hk.
  pose proof (digits_of_N_all n) as H.
  rewrite forallb_forall in H |- *. intros x Hx. specialize (H x Hx).
  unfold isDigit in H. apply andb_true_iff in H as [H _].
  apply N.leb_le in H. apply negb_true_iff, N.eqb_neq. lia.
Qed.

Lemma digits_cons n : exists c r, digits_of_N n = c :: r.
Proof.
  destruct (digits_of_N_nonempty n) as [pre H]. rewrite H.
  destruct pre as [ | c pre]; [now exists (48 + n mod 10), [] | ].
  now exists c, (pre ++ [48 + n mod 10]).
Qed.

(** A stored name made of a stem without dots and slashes, of two code
    units or more, and the extension of the original name. *)
Lemma stored_name stem name :
  absent 47 stem -> absent 46 stem -> (2 <= length stem)%nat ->
  absent 47 (stem ++ Analyze.extname name) /\
  Analyze.extname (stem ++ Analyze.extname name) = Analyze.extname name.
Proof.
  intros H47 H46 Hlen.
  destruct (extname_shape name) as [-> | (x & -> & Hx46 & Hx47)].
  - rewrite app_nil_r. split; [exact H47 | ].
    pose proof (extname_plain [] stem 0 (or_introl eq_refl) H47 H46
                  (fun _ => eq_refl)) as E.
    cbn [app repeat] in E. now rewrite app_nil_r in E.
  - split.
    + apply absent_app. split; [exact H47 | ]. cbn [forallb].
      now rewrite Hx47.
    + pose proof (extname_dotted [] stem x 0 (or_introl eq_refl)
                    H47 Hx47 Hx46) as E.
      cbn [app repeat] in E. rewrite app_nil_r in E. rewrite E.
      destruct stem as [ | a [ | b stem]]; cbn [length] in Hlen;
        [lia | lia | reflexivity].
Qed.

(** The same for a stem of one digit. *)
Lemma stored_name_digit c name :
  isDigit c = true ->
  absent 47 (c :: Analyze.extname name) /\
  Analyze.extname (c :: Analyze.extname name) = Analyze.extname name.
Proof.
  intros Hc. unfold isDigit in Hc. apply andb_true_iff in Hc as [Hc _].
  apply N.leb_le in Hc.
  assert (H47 : absent 47 [c]).
  { cbn [forallb]. destruct (N.eqb_spec c 47); [lia | reflexivity]. }
  assert (H46 : absent 46 [c]).
  { cbn [forallb]. destruct (N.eqb_spec c 46); [lia | reflexivity]. }
  change (c :: Analyze.extname name) with ([c] ++ Analyze.extname name).
  destruct (extname_shape name) as [-> | (x & -> & Hx46 & Hx47)].
  - split; [exact H47 | ].
    exact (extname_plain [] [c] 0 (or_introl eq_refl) H47 H46
             (fun _ => eq_refl)).
  - split.
    + apply absent_app. split; [exact H47 | ]. cbn [forallb].
      now rewrite Hx47.
    + pose proof (extname_dotted [] [c] x 0 (or_introl eq_refl)
                    H47 Hx47 Hx46) as E.
      cbn [app repeat] in E. rewrite app_nil_r in E. cbn [app].
      rewrite E.
      destruct (N.eqb_spec c 46); [lia | ]. now destruct x.
Qed.

(** Whatever the original name is, the name under which [/upload] stores
    the file holds no slash, so the file stays in the upload directory,
    and it has the extension of the original name. *)
Theorem upload_filename_is_safe :
  forall now originalname,
    absent 47 (UploadStorage.filename now originalname) /\
    Analyze.extname (UploadStorage.filename now originalname)
    = Analyze.extname originalname.
Proof.
  intros now name. unfold UploadStorage.filename.
  pose proof (digits_absent 47 now eq_refl) as H47.
  pose proof (digits_absent 46 now eq_refl) as H46.
  pose proof (digits_of_N_all now) as Hall.
  destruct (digits_of_N now) as [ | c [ | d r]] eqn:E.
  - destruct (digits_cons now) as (c & r & H). congruence.
  - cbn [forallb] in Hall. apply andb_true_iff in Hall as [Hc _].
    now apply stored_name_digit.
  - apply stored_name; [exact H47 | exact H46 | cbn [length]; lia].
Qed.

(** The same for [/analyze], when the name of the form field holds no dot
    and no slash, as [image] does. *)
Theorem analyze_filename_is_safe :
  forall fieldname now random originalname,
    absent 47 fieldname -> absent 46 fieldname ->
    absent 47 (AnalyzeStorage.filename fieldname now random originalname) /\
    Analyze.extname
      (AnalyzeStorage.filename fieldname now random originalname)
    = Analyze.extname originalname.
Proof.
  intros fieldname now random name H47 H46.
  unfold AnalyzeStorage.filename, AnalyzeStorage.uniqueSuffix.
  change (js "-") with [45].
  set (stem := fieldname ++ [45] ++ digits_of_N now ++ [45]
               ++ digits_of_N random).
  replace (fieldname ++ [45]
           ++ (digits_of_N now ++ [45] ++ digits_of_N random)
           ++ Analyze.extname name)
    with (stem ++ Analyze.extname name)
    by (subst stem; now rewrite <- !app_assoc).
  apply stored_name; subst stem.
  - repeat (apply absent_app; split); try reflexivity; try assumption;
      now apply digits_absent.
  - repeat (apply absent_app; split); try reflexivity; try assumption;
      now apply digits_absent.
  - rewrite !length_app. cbn [length]. lia.
Qed.

Lemma analyze_filename_is_safe_witness :
  absent 47 (AnalyzeStorage.filename (js "image") 1700000000000 123456789
               (js "../../etc/passwd.PNG")) /\
  Analyze.extname
    (AnalyzeStorage.filename (js "image") 1700000000000 123456789
       (js "../../etc/passwd.PNG"))
  = Analyze.extname (js "../../etc/passwd.PNG").
Proof.
  apply (analyze_filename_is_safe (js "image") 1700000000000 123456789
           (js "../../etc/passwd.PNG")); reflexivity.
Defined.

(* ================================================================== *)
(** * The route [/analyze] *)
(* ================================================================== *)

(** Every request to [/analyze] is answered exactly once, by the upload
    middleware or by the handler, and nothing is thrown out of the route,
    whatever the upload, the file system and the provider do. *)
Theorem route_answers_exactly_once :
  forall env err req fs,
    fst (AnalyzeRoute.route env err req (initial fs)) = Normal tt /\
    length (responses
              (trace (snd (AnalyzeRoute.route env err req (initial fs)))))
    = 1%nat.
Proof.
  intros env err req fs.
  unfold AnalyzeRoute.route, AnalyzeRoute.uploadMiddleware.
  destruct err as [[e | e] | ].
  - split; reflexivity.
  - split; reflexivity.
  - split_handler; read_trace; split; reflexivity.
Qed.


